(** * vapi-webcall: the live audio streaming pipeline of [TwiloCall/page.tsx]

    A shallow embedding of the [VapiCall] React component
    (frontend/components/TwiloCall/page.tsx): the frame validator, the
    PCM16 to Float32 conversion, the playback queue and its drain loop, the
    WebSocket handlers with the reconnect timer, [startCall] and
    [stopListening].

    Conventions of the embedding.
    - An [ArrayBuffer] is a [list byte]; a possibly-null one is an [option].
    - An [Int16Array] view reads little-endian pairs of bytes as signed 16-bit
      integers in [Z]; the wrap-around of the sign bit is written out.
    - Numbers that the source keeps as IEEE doubles (normalised samples,
      times on the audio clock) are exact rationals [Q].  Every sample
      [x / 32768] with [x] a 16-bit integer is a dyadic rational with at most
      16 significant bits, hence exactly representable both as a double and as
      a float32, so the decoder is modelled without rounding.  Times are
      idealised: sums of durations are exact.
    - The refs of the component ([useRef]) and its React state ([useState])
      are fields of [State]; handlers are state transformers.  Calls on
      browser objects ([new WebSocket], [ws.close], [source.start],
      [setTimeout]) are recorded in log fields of the state.
    - What the platform decides ([JSON.parse], whether a Web Audio call or the
      [WebSocket] constructor throws) is a variable of the section.
    - A React closure sees the state of the render that created it.  The only
      state variable read by a closure is [ws], read by [stopListening]
      (deps [[ws]]); a call of [stopListening] therefore takes the captured
      value as an argument.  [connectWebSocket] is memoised with deps
      [[initAudioContext, processAudioQueue]], both of which have empty deps,
      so the socket handlers are the closures of the mount render, where
      [ws] is [null].
    - The effect of lines 291-295 has deps [[stopListening]]: when a render in
      which [ws] changed is committed, the cleanup of the previous effect runs
      the previous [stopListening].  Commits are events of their own
      ([Commit]); unmounting is not modelled.
    - An asynchronous function runs up to its first [await] of something
      that takes time, and its continuation is an event of its own:
      [startCall] stops at the [fetch] of line 238 and goes on at
      [FetchSettled]; [socket.onopen] stops at the [resume()] of line 32,
      when the context was created suspended, and goes on at
      [ResumeSettled].  The state counts the continuations that are pending.
      [startCall] touches nothing between its [await fetch(...)] and its
      [await res.json()], so the two are one wait and [FetchSettled] is the
      moment the body has been read (or either promise rejected).  An
      [await] of a promise that is already settled ([initAudioContext]
      returning without having waited) lets no event in and is taken in the
      same step. *)

From Stdlib Require Import String Ascii ZArith QArith Qminmax Lqa Bool Arith Lia.
From Stdlib Require Import DecimalString Sorted List.
From Stdlib.Strings Require Import Byte.
From Equations Require Import Equations.
Import ListNotations.

Local Open Scope string_scope.
Local Open Scope list_scope.
Local Open Scope nat_scope.

(** ** JavaScript array helpers *)

Module Js.

(** [arr.slice(-n)]: the last [n] elements (all of them when the array is
    shorter). *)
Definition slice_last {A} (n : nat) (l : list A) : list A :=
  skipn (length l - n) l.

(** [arr.push(x)]. *)
Definition push {A} (l : list A) (x : A) : list A := l ++ [x].

End Js.

(** ** Frame validator and PCM decoder *)

Module Pcm.

Definition ArrayBuffer := list byte.

Definition byteLength (b : ArrayBuffer) : nat := length b.

(** [validateAudioData(data)], lines 44-65.  [None] is a null buffer.
    [sampleCount = data.byteLength / 2] is only reached for an even byte
    length, where the JavaScript division is exact. *)
Definition validateAudioData (data : option ArrayBuffer) : bool :=
  match data with
  | None => false
  | Some d =>
      if byteLength d =? 0 then false
      else if negb (byteLength d mod 2 =? 0) then false
      else
        let sampleCount := byteLength d / 2 in
        if sampleCount <? 128 then false
        else true
  end.

(** One element of an [Int16Array] view: two bytes, low byte first, read as
    a two's-complement 16-bit integer. *)
Definition int16_of_bytes (lo hi : byte) : Z :=
  let u := (Z.of_N (Byte.to_N lo) + 256 * Z.of_N (Byte.to_N hi))%Z in
  if (u <? 32768)%Z then u else (u - 65536)%Z.

(** [new Int16Array(arrayBuffer)]: throws a RangeError ([None]) when the
    byte length is not a multiple of 2. *)
Fixpoint Int16Array (b : ArrayBuffer) : option (list Z) :=
  match b with
  | [] => Some []
  | [_] => None
  | lo :: hi :: rest =>
      match Int16Array rest with
      | Some t => Some (int16_of_bytes lo hi :: t)
      | None => None
      end
  end.

(** [Math.max(-1, Math.min(1, pcmData[i] / 32768))], line 171. *)
Definition pcm_to_float (x : Z) : Q :=
  Qmax (-1) (Qmin 1 (inject_Z x / 32768))%Q.

(** The conversion loop of lines 167-172 over the whole view. *)
Definition to_float32 (pcm : list Z) : list Q := map pcm_to_float pcm.

(** Lines 159-172: view the buffer as 16-bit samples and convert them. *)
Definition decode (b : ArrayBuffer) : option (list Q) :=
  match Int16Array b with
  | Some pcm => Some (to_float32 pcm)
  | None => None
  end.

Definition int16_range (x : Z) : Prop := (-32768 <= x <= 32767)%Z.

End Pcm.

Import Pcm.

(** ** Data of the component *)

Inductive ContextState := running | suspended | closed.

(** The part of a Web Audio [AudioContext] the component reads. *)
Record AudioContext := {
  sampleRate : positive;
  currentTime : Q;
  state : ContextState
}.

(** [interface AudioQueueItem], lines 4-7. *)
Record AudioQueueItem := {
  data : list Q;
  timestamp : Z
}.

(** One call [source.start(playTime)] on a source whose buffer holds
    [buffer]. *)
Record Scheduled := {
  startTime : Q;
  buffer : list Q
}.

(** The audio refs (lines 17-19) and the log of the sources started. *)
Record Audio := {
  audioContextRef : option AudioContext;
  audioQueueRef : list AudioQueueItem;
  nextPlayTimeRef : Q;
  started : list Scheduled
}.

(** The connection refs (lines 20-21), the pending timers of the page, its
    clock in milliseconds, and the logs of [new WebSocket(url)] and
    [ws.close(code, reason)] calls.  A socket is named by the position of its
    constructor call in [connects].  Timer identifiers are positive, as in
    browsers, so a stored identifier is always truthy. *)
Record Net := {
  reconnectTimeoutRef : option nat;
  wsUrlRef : string;
  timers : list (nat * nat);
  nextTimer : nat;
  clock : nat;
  connects : list string;
  closeCalls : list (nat * Z * string)
}.

(** The React state of lines 11-14 ([phoneNumber] only feeds the request
    body and is left out). *)
Record View := {
  callStatus : string;
  listenStatus : string;
  ws : option nat;
  isPlaying : bool
}.

(** [rendered_ws] is the value of [ws] in the last committed render: the one
    captured by the [stopListening] of the buttons and of the pending effect
    cleanup (lines 291-295).  [pending_fetches] counts the calls of
    [startCall] waiting at the [fetch] of line 238, [pending_resumes] the
    [onopen] handlers waiting at the [resume()] of line 32. *)
Record State := {
  view : View;
  audio : Audio;
  net : Net;
  rendered_ws : option nat;
  pending_fetches : nat;
  pending_resumes : nat
}.

(** A parsed JSON text; an object lists each of its keys once. *)
#[local] Unset Elimination Schemes.
Inductive Json :=
| JNull
| JBool (b : bool)
| JNum (n : Z)
| JStr (s : string)
| JArr (items : list Json)
| JObj (fields : list (string * Json)).
#[local] Set Elimination Schemes.

(** [evt.data] of a message event: a binary frame or a text frame. *)
Inductive MessageData :=
| Binary (d : ArrayBuffer)
| Text (raw : string).

(** What [await res.json()] yields: a rejection, or an object of which the
    handler reads [listenUrl], [callId] and [error]. *)
Inductive JsonBody :=
| BadJson (message : string)
| Body (listenUrl callId error : option string).

(** What [await fetch(...)] and the [await res.json()] that follows yield: a
    rejection of the request, or a response with what reading its body
    gave. *)
Inductive FetchOutcome :=
| FetchRejects (message : string)
| Response (ok : bool) (status : nat) (body : JsonBody).

(** What [new AudioContextClass({ sampleRate: 16000 })] does when
    [initAudioContext] has to create a context (lines 28-29): it throws, or
    it returns a context in state [st] whose clock reads [t] and which runs
    at [rate] frames per second.  The rate is the one the browser gives the
    context and that the component reads back from it ([createBuffer] of
    line 94, [duration] of line 107): 16000 where the option is honoured,
    the rate of the hardware with the prefixed [webkitAudioContext], which
    takes no options. *)
Inductive AudioInit :=
| CtorThrows
| Created (rate : positive) (t : Q) (st : ContextState).

(** Everything that can happen to the mounted component.  [ClickStart] is
    the click on the Start button, [FetchSettled] the settling of a request
    it sent; [SocketOpen] is the [open] event of a socket, [ResumeSettled]
    the settling of the [resume()] an [onopen] handler waits for;
    [AudioClock] and [AudioState] are the browser moving the clock of the
    context in the ref and changing its state (a [resume()] or a
    [suspend()] taking effect, lines 32 and 298-309). *)
Inductive Event :=
| ClickStart
| FetchSettled (r : FetchOutcome)
| ClickEnd
| Commit
| SocketOpen (i : AudioInit)
| ResumeSettled (ok : bool)
| SocketMessage (m : MessageData) (date_now : Z)
| SocketClose (code : Z)
| SocketError
| Elapse (ms : nat)
| AudioClock (t : Q)
| AudioState (st : ContextState).

(** *** Field updates *)

Definition set_audioContext (c : option AudioContext) (a : Audio) : Audio :=
  {| audioContextRef := c;
     audioQueueRef := audioQueueRef a;
     nextPlayTimeRef := nextPlayTimeRef a;
     started := started a |}.

Definition set_audioQueue (q : list AudioQueueItem) (a : Audio) : Audio :=
  {| audioContextRef := audioContextRef a;
     audioQueueRef := q;
     nextPlayTimeRef := nextPlayTimeRef a;
     started := started a |}.

Definition set_nextPlayTime (t : Q) (a : Audio) : Audio :=
  {| audioContextRef := audioContextRef a;
     audioQueueRef := audioQueueRef a;
     nextPlayTimeRef := t;
     started := started a |}.

Definition log_start (s : Scheduled) (a : Audio) : Audio :=
  {| audioContextRef := audioContextRef a;
     audioQueueRef := audioQueueRef a;
     nextPlayTimeRef := nextPlayTimeRef a;
     started := started a ++ [s] |}.

Definition set_reconnectTimeout (r : option nat) (n : Net) : Net :=
  {| reconnectTimeoutRef := r;
     wsUrlRef := wsUrlRef n;
     timers := timers n;
     nextTimer := nextTimer n;
     clock := clock n;
     connects := connects n;
     closeCalls := closeCalls n |}.

Definition set_wsUrl (u : string) (n : Net) : Net :=
  {| reconnectTimeoutRef := reconnectTimeoutRef n;
     wsUrlRef := u;
     timers := timers n;
     nextTimer := nextTimer n;
     clock := clock n;
     connects := connects n;
     closeCalls := closeCalls n |}.

Definition set_timers (t : list (nat * nat)) (n : Net) : Net :=
  {| reconnectTimeoutRef := reconnectTimeoutRef n;
     wsUrlRef := wsUrlRef n;
     timers := t;
     nextTimer := nextTimer n;
     clock := clock n;
     connects := connects n;
     closeCalls := closeCalls n |}.

Definition set_nextTimer (k : nat) (n : Net) : Net :=
  {| reconnectTimeoutRef := reconnectTimeoutRef n;
     wsUrlRef := wsUrlRef n;
     timers := timers n;
     nextTimer := k;
     clock := clock n;
     connects := connects n;
     closeCalls := closeCalls n |}.

Definition set_clock (t : nat) (n : Net) : Net :=
  {| reconnectTimeoutRef := reconnectTimeoutRef n;
     wsUrlRef := wsUrlRef n;
     timers := timers n;
     nextTimer := nextTimer n;
     clock := t;
     connects := connects n;
     closeCalls := closeCalls n |}.

Definition log_connect (u : string) (n : Net) : Net :=
  {| reconnectTimeoutRef := reconnectTimeoutRef n;
     wsUrlRef := wsUrlRef n;
     timers := timers n;
     nextTimer := nextTimer n;
     clock := clock n;
     connects := connects n ++ [u];
     closeCalls := closeCalls n |}.

Definition log_close (c : nat * Z * string) (n : Net) : Net :=
  {| reconnectTimeoutRef := reconnectTimeoutRef n;
     wsUrlRef := wsUrlRef n;
     timers := timers n;
     nextTimer := nextTimer n;
     clock := clock n;
     connects := connects n;
     closeCalls := closeCalls n ++ [c] |}.

Definition with_view (f : View -> View) (s : State) : State :=
  {| view := f (view s); audio := audio s; net := net s;
     rendered_ws := rendered_ws s;
     pending_fetches := pending_fetches s;
     pending_resumes := pending_resumes s |}.

Definition with_audio (f : Audio -> Audio) (s : State) : State :=
  {| view := view s; audio := f (audio s); net := net s;
     rendered_ws := rendered_ws s;
     pending_fetches := pending_fetches s;
     pending_resumes := pending_resumes s |}.

Definition with_net (f : Net -> Net) (s : State) : State :=
  {| view := view s; audio := audio s; net := f (net s);
     rendered_ws := rendered_ws s;
     pending_fetches := pending_fetches s;
     pending_resumes := pending_resumes s |}.

Definition set_rendered_ws (w : option nat) (s : State) : State :=
  {| view := view s; audio := audio s; net := net s; rendered_ws := w;
     pending_fetches := pending_fetches s;
     pending_resumes := pending_resumes s |}.

Definition set_pending_fetches (k : nat) (s : State) : State :=
  {| view := view s; audio := audio s; net := net s;
     rendered_ws := rendered_ws s;
     pending_fetches := k;
     pending_resumes := pending_resumes s |}.

Definition set_pending_resumes (k : nat) (s : State) : State :=
  {| view := view s; audio := audio s; net := net s;
     rendered_ws := rendered_ws s;
     pending_fetches := pending_fetches s;
     pending_resumes := k |}.

Definition setCallStatus (x : string) : State -> State :=
  with_view (fun v =>
    {| callStatus := x; listenStatus := listenStatus v; ws := ws v;
       isPlaying := isPlaying v |}).

Definition setListenStatus (x : string) : State -> State :=
  with_view (fun v =>
    {| callStatus := callStatus v; listenStatus := x; ws := ws v;
       isPlaying := isPlaying v |}).

Definition setWs (x : option nat) : State -> State :=
  with_view (fun v =>
    {| callStatus := callStatus v; listenStatus := listenStatus v; ws := x;
       isPlaying := isPlaying v |}).

Definition setIsPlaying (x : bool) : State -> State :=
  with_view (fun v =>
    {| callStatus := callStatus v; listenStatus := listenStatus v; ws := ws v;
       isPlaying := x |}).

(** *** Timers *)

(** [setTimeout(callback, delay)]: the only callback the component ever
    registers is the reconnect of lines 219-221, so a pending timer is its
    identifier and its due time. *)
Definition setTimeout (delay : nat) (n : Net) : nat * Net :=
  let id := nextTimer n in
  (id, set_nextTimer (S id) (set_timers (timers n ++ [(id, clock n + delay)]) n)).

(** [clearTimeout(id)]. *)
Definition clearTimeout (id : nat) (n : Net) : Net :=
  set_timers (filter (fun t => negb (fst t =? id)) (timers n)) n.

(** Lines 136-139 and 264-267: clear the pending reconnect, if any. *)
Definition clearReconnect (n : Net) : Net :=
  match reconnectTimeoutRef n with
  | Some id => set_reconnectTimeout None (clearTimeout id n)
  | None => n
  end.

(** *** The state at mount (lines 10-21) *)

Definition initial_state : State :=
  {| view := {| callStatus := "Idle"; listenStatus := "Not listening";
                ws := None; isPlaying := false |};
     audio := {| audioContextRef := None; audioQueueRef := [];
                 nextPlayTimeRef := 0; started := [] |};
     net := {| reconnectTimeoutRef := None; wsUrlRef := "";
               timers := []; nextTimer := 1; clock := 0;
               connects := []; closeCalls := [] |};
     rendered_ws := None;
     pending_fetches := 0;
     pending_resumes := 0 |}.

(** ** The handlers of the component *)

Definition inspect {A} (x : A) : { y : A | x = y } := exist _ x eq_refl.

(** [message.type === 'call-ended'], line 196.  Reading a property of
    [null] throws a TypeError ([None]); on any other non-object value the
    property is undefined. *)
Definition is_call_ended (message : Json) : option bool :=
  match message with
  | JNull => None
  | JObj fields =>
      match find (fun kv => String.eqb (fst kv) "type") fields with
      | Some (_, JStr t) => Some (String.eqb t "call-ended")
      | _ => Some false
      end
  | _ => Some false
  end.

(** The template literal [`HTTP ${res.status}`], line 246. *)
Definition http_status_text (status : nat) : string :=
  String.append "HTTP " (NilZero.string_of_uint (Nat.to_uint status)).

(** [audioBuffer.duration] of a buffer of [n] frames: [n / sampleRate]. *)
Definition duration (ctx : AudioContext) (n : nat) : Q :=
  (inject_Z (Z.of_nat n) / inject_Z (Zpos (sampleRate ctx)))%Q.

(** [audioQueueRef.current.push({data, timestamp})], lines 181-184. *)
Definition enqueue (item : AudioQueueItem) (a : Audio) : Audio :=
  set_audioQueue (Js.push (audioQueueRef a) item) a.

Section VapiCall.

(** Whether one of the Web Audio calls of lines 94-104 ([createBuffer],
    [set], [createBufferSource], [connect], [start]) throws for this chunk.
    All of them come before the update of [nextPlayTimeRef], and a source
    whose [start] threw is not scheduled. *)
Variable webaudio_throws : AudioContext -> AudioQueueItem -> bool.

(** [JSON.parse]; [None] when it throws. *)
Variable JSON_parse : string -> option Json.

(** [new WebSocket(url)]: [Some message] when the constructor throws. *)
Variable WebSocket_throws : string -> option string.

(** The body of the [while] loop, lines 80-118, on the queue from which
    [item] has already been shifted.  The three early exits ([continue],
    [continue], [catch]) leave everything else untouched. *)
Definition drain_body (ctx : AudioContext) (now : Q)
           (item : AudioQueueItem) (a : Audio) : Audio :=
  if length (data item) =? 0 then a
  else if length (data item) <? 128 then a
  else if webaudio_throws ctx item then a
  else
    let playTime := Qmax now (nextPlayTimeRef a) in
    let a1 := log_start {| startTime := playTime; buffer := data item |} a in
    let a2 := set_nextPlayTime
                (playTime + duration ctx (length (data item)))%Q a1 in
    if 50 <? length (audioQueueRef a2)
    then set_audioQueue (Js.slice_last 25 (audioQueueRef a2)) a2
    else a2.

(** The [while (audioQueueRef.current.length > 0)] loop, lines 77-119: shift
    the oldest item, run the body, repeat.  Every iteration shortens the
    queue, which is the termination measure. *)
Equations? drain (ctx : AudioContext) (now : Q) (a : Audio) : Audio
  by wf (length (audioQueueRef a)) lt :=
drain ctx now a with inspect (audioQueueRef a) := {
  | exist _ [] _ => a
  | exist _ (item :: rest) E =>
      drain ctx now (drain_body ctx now item (set_audioQueue rest a)) }.
Proof.
  rewrite E. unfold drain_body.
  destruct (length (data item) =? 0); [simpl; lia|].
  destruct (length (data item) <? 128); [simpl; lia|].
  destruct (webaudio_throws ctx item); [simpl; lia|].
  cbv zeta. cbn [set_nextPlayTime log_start set_audioQueue audioQueueRef].
  destruct (50 <? length rest);
    cbn [set_nextPlayTime log_start set_audioQueue audioQueueRef length].
  - unfold Js.slice_last. rewrite length_skipn. lia.
  - lia.
Qed.

(** [processAudioQueue], lines 70-120.  [currentTime] is read once, before
    the loop. *)
Definition processAudioQueue (a : Audio) : Audio :=
  match audioContextRef a with
  | None => a
  | Some audioContext =>
      if length (audioQueueRef a) =? 0 then a
      else drain audioContext (currentTime audioContext) a
  end.

(** [initAudioContext], lines 24-41, up to the point where it returns or
    waits: the second component tells that it stopped at the
    [await ...resume()] of line 32, which it does when the context it has
    just stored in the ref is suspended.  Otherwise line 35 sets the cursor
    to the clock of the new context in the same step. *)
Definition initAudioContext (i : AudioInit) (s : State) : State * bool :=
  let create :=
    match i with
    | CtorThrows => (setListenStatus "Audio Error" s, false)
    | Created rate t st =>
        let fresh := {| sampleRate := rate; currentTime := t; state := st |} in
        let s1 := with_audio (set_audioContext (Some fresh)) s in
        match st with
        | suspended => (s1, true)
        | _ => (with_audio (set_nextPlayTime (currentTime fresh)) s1, false)
        end
    end in
  match audioContextRef (audio s) with
  | Some c => match state c with running => (s, false) | _ => create end
  | None => create
  end.

(** The rest of [initAudioContext] once [resume()] has settled.  When it
    resolved, line 35 reads the clock of the context the ref holds by then;
    if the ref has been emptied meanwhile the read throws a TypeError.  That
    exception and a rejection of [resume()] both end in the [catch] of lines
    37-40. *)
Definition initAudioContext_resumed (ok : bool) (s : State) : State :=
  if ok then
    match audioContextRef (audio s) with
    | Some c => with_audio (set_nextPlayTime (currentTime c)) s
    | None => setListenStatus "Audio Error" s
    end
  else setListenStatus "Audio Error" s.

(** [stopListening], lines 262-288, as created by a render in which [ws] had
    the value [captured_ws]. *)
Definition stopListening (captured_ws : option nat) (s : State) : State :=
  let s1 := with_net clearReconnect s in
  let s2 :=
    match captured_ws with
    | Some socket =>
        setWs None
          (with_net (log_close (socket, 1000%Z, "User stopped listening")) s1)
    | None => s1
    end in
  let s3 := with_audio (set_audioQueue []) s2 in
  let s4 :=
    match audioContextRef (audio s3) with
    | Some c =>
        match state c with
        | closed => s3
        | _ => with_audio (set_audioContext None) s3
        end
    | None => s3
    end in
  with_net (set_wsUrl "")
    (setCallStatus "Idle" (setIsPlaying false (setListenStatus "Stopped" s4))).

(** The [stopListening] visible to the socket handlers: the one of the mount
    render, whose [ws] is the initial [null]. *)
Definition stopListening_at_mount : State -> State := stopListening None.

(** [connectWebSocket(listenUrl)], lines 123-232, up to the registration of
    the handlers.  The second component is the message of the exception the
    constructor threw, if it did. *)
Definition connectWebSocket (listenUrl : string) (s : State)
  : State * option string :=
  let s1 := with_net (set_wsUrl listenUrl) s in
  let socket := length (connects (net s1)) in
  let s2 := with_net (log_connect listenUrl) s1 in
  match WebSocket_throws listenUrl with
  | Some message => (s2, Some message)
  | None => (setWs (Some socket) s2, None)
  end.

(** Lines 133-139 of [socket.onopen]: what follows
    [await initAudioContext()]. *)
Definition onopen_rest (s : State) : State :=
  with_net clearReconnect (setIsPlaying true s).

(** [socket.onopen], lines 129-140, up to the point where it returns or
    waits for [resume()]. *)
Definition onopen (i : AudioInit) (s : State) : State :=
  match initAudioContext i (setListenStatus "Listening..." s) with
  | (s1, true) => set_pending_resumes (S (pending_resumes s1)) s1
  | (s1, false) => onopen_rest s1
  end.

(** A [resume()] settles and the [onopen] handler that waited for it goes
    on: the rest of [initAudioContext], then lines 133-139. *)
Definition onresume (ok : bool) (s : State) : State :=
  match pending_resumes s with
  | 0 => s
  | S k => onopen_rest (initAudioContext_resumed ok (set_pending_resumes k s))
  end.

(** [socket.onmessage], lines 142-207. *)
Definition onmessage (m : MessageData) (date_now : Z) (s : State) : State :=
  match audioContextRef (audio s) with
  | None => s
  | Some _ =>
      match m with
      | Binary arrayBuffer =>
          if negb (validateAudioData (Some arrayBuffer)) then s
          else if byteLength arrayBuffer =? 0 then s
          else
            match Int16Array arrayBuffer with
            | None => s
            | Some pcmData =>
                if length pcmData =? 0 then s
                else
                  let float32Data := to_float32 pcmData in
                  if length float32Data =? 0 then s
                  else
                    with_audio
                      (fun a => processAudioQueue
                                  (enqueue {| data := float32Data;
                                              timestamp := date_now |} a)) s
            end
      | Text raw =>
          match JSON_parse raw with
          | None => s
          | Some message =>
              match is_call_ended message with
              | Some true =>
                  stopListening_at_mount (setCallStatus "Call ended" s)
              | _ => s
              end
          end
      end
  end.

(** [socket.onclose], lines 209-223. *)
Definition onclose (code : Z) (s : State) : State :=
  let s1 := setIsPlaying false (setListenStatus "Connection closed" s) in
  if negb (code =? 1000)%Z && negb (code =? 1001)%Z
     && negb (String.eqb (wsUrlRef (net s1)) "")
  then
    let s2 := setListenStatus "Reconnecting..." s1 in
    let (id, n) := setTimeout 2000 (net s2) in
    with_net (fun _ => set_reconnectTimeout (Some id) n) s2
  else s1.

(** [socket.onerror], lines 225-229. *)
Definition onerror (s : State) : State :=
  setIsPlaying false (setListenStatus "Connection error" s).

(** The callback of line 220, run when its timer fires; an exception of the
    constructor escapes to the event loop. *)
Definition reconnect (s : State) : State :=
  fst (connectWebSocket (wsUrlRef (net s)) s).

(** [ms] milliseconds pass: the timers that are due fire, oldest first. *)
Definition elapse (ms : nat) (s : State) : State :=
  let t := clock (net s) + ms in
  let due := filter (fun x => snd x <=? t) (timers (net s)) in
  let pending := filter (fun x => negb (snd x <=? t)) (timers (net s)) in
  fold_left (fun s' _ => reconnect s') due
            (with_net (fun n => set_clock t (set_timers pending n)) s).

(** [startCall] up to the [await fetch(...)] of line 238: the status of line
    236, and one more request in flight. *)
Definition startCall_begin (s : State) : State :=
  set_pending_fetches (S (pending_fetches s))
    (setCallStatus "Starting call..." s).

(** [startCall] from line 238 on, lines 238-259, given what the request
    yields.  The [catch] of lines 256-259 turns every exception into a call
    status. *)
Definition startCall_settled (r : FetchOutcome) (s0 : State) : State :=
  let failed (message : string) (s' : State) :=
    setCallStatus (String.append "Call failed: " message) s' in
  match r with
  | FetchRejects message => failed message s0
  | Response ok status body =>
      if negb ok then
        match body with
        | BadJson message => failed message s0
        | Body _ _ (Some e) =>
            if String.eqb e "" then failed (http_status_text status) s0
            else failed e s0
        | Body _ _ None => failed (http_status_text status) s0
        end
      else
        match body with
        | BadJson message => failed message s0
        | Body None _ _ => failed "Listen URL not received" s0
        | Body (Some listenUrl) _ _ =>
            if String.eqb listenUrl "" then failed "Listen URL not received" s0
            else
              match connectWebSocket listenUrl s0 with
              | (s1, Some message) => failed message s1
              | (s1, None) => setCallStatus "Call in progress..." s1
              end
        end
  end.

(** A request settles and the [startCall] that sent it goes on. *)
Definition onfetch (r : FetchOutcome) (s : State) : State :=
  match pending_fetches s with
  | 0 => s
  | S k => startCall_settled r (set_pending_fetches k s)
  end.

(** [startCall], lines 234-260, in one piece: the click and the settling of
    its request with nothing in between. *)
Definition startCall (r : FetchOutcome) (s : State) : State :=
  startCall_settled r (setCallStatus "Starting call..." s).

(** A render is committed.  When [ws] differs from the rendered value,
    [stopListening] is a new function, the effect of lines 291-295 is
    replaced, and the cleanup of the previous effect calls the previous
    [stopListening]. *)
Definition commit (s : State) : State :=
  let current := ws (view s) in
  let unchanged :=
    match current, rendered_ws s with
    | Some a, Some b => a =? b
    | None, None => true
    | _, _ => false
    end in
  if unchanged then s
  else set_rendered_ws current (stopListening (rendered_ws s) s).

(** The audio clock reads [t]. *)
Definition tick_audio (t : Q) (s : State) : State :=
  match audioContextRef (audio s) with
  | Some c =>
      with_audio (set_audioContext
        (Some {| sampleRate := sampleRate c; currentTime := t;
                 state := state c |})) s
  | None => s
  end.

(** The context in the ref is now in state [st]. *)
Definition audio_state (st : ContextState) (s : State) : State :=
  match audioContextRef (audio s) with
  | Some c =>
      with_audio (set_audioContext
        (Some {| sampleRate := sampleRate c; currentTime := currentTime c;
                 state := st |})) s
  | None => s
  end.

(** One event.  The buttons are disabled as in lines 332 and 344. *)
Definition step (e : Event) (s : State) : State :=
  match e with
  | ClickStart =>
      match rendered_ws s with
      | None => startCall_begin s
      | Some _ => s
      end
  | FetchSettled r => onfetch r s
  | ClickEnd =>
      match rendered_ws s with
      | Some _ => stopListening (rendered_ws s) s
      | None => s
      end
  | Commit => commit s
  | SocketOpen i => onopen i s
  | ResumeSettled ok => onresume ok s
  | SocketMessage m date_now => onmessage m date_now s
  | SocketClose code => onclose code s
  | SocketError => onerror s
  | Elapse ms => elapse ms s
  | AudioClock t => tick_audio t s
  | AudioState st => audio_state st s
  end.

Definition run (events : list Event) (s : State) : State :=
  fold_left (fun s' e => step e s') events s.

End VapiCall.

(** ** The rendered page (lines 311-397) *)

(** [s.includes(sub)]. *)
Fixpoint includes (s sub : string) : bool :=
  String.prefix sub s ||
  match s with
  | EmptyString => false
  | String _ rest => includes rest sub
  end.

(** [disabled={!phoneNumber || ws !== null}] of the Start button, line 332. *)
Definition start_disabled (phoneNumber : string) (ws : option nat) : bool :=
  String.eqb phoneNumber "" ||
  match ws with Some _ => true | None => false end.

(** [disabled={!ws}] of the End Call button, line 344. *)
Definition end_disabled (ws : option nat) : bool :=
  match ws with Some _ => false | None => true end.

(** The classes chosen for the call status box, lines 358-364. *)
Definition call_status_class (callStatus : string) : string :=
  if includes callStatus "failed" || includes callStatus "Error"
  then "bg-red-50 text-red-700 border-red-200"
  else if includes callStatus "progress" || includes callStatus "ended"
  then "bg-green-50 text-green-700 border-green-200"
  else "bg-gray-50 text-gray-700 border-gray-200".

(** The classes chosen for the audio status box, lines 371-377. *)
Definition listen_status_class (listenStatus : string) : string :=
  if String.eqb listenStatus "Listening..."
  then "bg-green-50 text-green-700 border-green-200"
  else if includes listenStatus "Error"
  then "bg-red-50 text-red-700 border-red-200"
  else "bg-yellow-50 text-yellow-700 border-yellow-200".

(** ** The conversion of the simpler variant *)

(** [float32Data[i] = pcmData[i] / 32768], the loop of the first version of
    the component: the same view, no clamping. *)
Definition simple_to_float32 (pcm : list Z) : list Q :=
  map (fun x => (inject_Z x / 32768)%Q) pcm.

(** ** Vocabulary of the statements *)

(** [Subseq l1 l2]: [l1] is [l2] with some elements left out, in the same
    order. *)
Inductive Subseq {A} : list A -> list A -> Prop :=
| Subseq_nil : Subseq [] []
| Subseq_skip x l1 l2 : Subseq l1 l2 -> Subseq l1 (x :: l2)
| Subseq_keep x l1 l2 : Subseq l1 l2 -> Subseq (x :: l1) (x :: l2).

(** A chunk passes the three exits of the loop body: it is not empty, it has
    at least 128 samples, and no Web Audio call throws on it. *)
Definition playable (throws : AudioContext -> AudioQueueItem -> bool)
           (ctx : AudioContext) (item : AudioQueueItem) : bool :=
  negb (length (data item) =? 0) && negb (length (data item) <? 128)
  && negb (throws ctx item).

(** Gapless scheduling as the specification words it: the chunks are started
    one after the other, the first at [max(now, t)], each next one at
    [max(now, end of the previous one)].  Returns the sources started and the
    final cursor. *)
Fixpoint back_to_back (ctx : AudioContext) (now t : Q) (chunks : list (list Q))
  : list Scheduled * Q :=
  match chunks with
  | [] => ([], t)
  | c :: rest =>
      let playTime := Qmax now t in
      let (l, t') := back_to_back ctx now
                       (playTime + duration ctx (length c))%Q rest in
      ({| startTime := playTime; buffer := c |} :: l, t')
  end.

(** Sum of the durations of the chunks. *)
Definition total_duration (ctx : AudioContext) (chunks : list (list Q)) : Q :=
  fold_right (fun c acc => (duration ctx (length c) + acc)%Q) 0%Q chunks.

(** The chunk a binary frame contributes to the queue, if the handler
    accepts the frame. *)
Definition chunk_of_frame (frame : ArrayBuffer) : option (list Q) :=
  if validateAudioData (Some frame) then decode frame else None.

(** A state all of whose scheduled start times are ordered and lie at or
    before the cursor. *)
Definition schedule_ordered (a : Audio) : Prop :=
  StronglySorted Qle (map startTime (started a)) /\
  Forall (fun s => (startTime s <= nextPlayTimeRef a)%Q) (started a).

(** The chunks that the binary frames among [events] contribute, in order of
    arrival. *)
Definition chunks_of_events (events : list Event) : list (list Q) :=
  flat_map (fun e =>
    match e with
    | SocketMessage (Binary frame) _ =>
        match chunk_of_frame frame with
        | Some c => [c]
        | None => []
        end
    | _ => []
    end) events.

(** The event is not the opening of a socket (which may replace the audio
    context and its clock). *)
Definition not_open (e : Event) : Prop :=
  match e with
  | SocketOpen _ => False
  | _ => True
  end.

(** The event does not set the cursor: it is neither the opening of a socket
    nor the settling of a [resume()], after which line 35 runs. *)
Definition not_reset (e : Event) : Prop :=
  match e with
  | SocketOpen _ | ResumeSettled _ => False
  | _ => True
  end.

(** The event is a binary frame or the browser moving the clock or the state
    of the context: what happens while audio streams in. *)
Definition streaming (e : Event) : Prop :=
  match e with
  | SocketMessage (Binary _) _ | AudioClock _ | AudioState _ => True
  | _ => False
  end.

(** The event belongs to no Start: it is neither a click on the start button
    nor the settling of the request of an earlier click. *)
Definition not_start (e : Event) : Prop :=
  match e with
  | ClickStart | FetchSettled _ => False
  | _ => True
  end.

(** The event is a close with a code other than 1000 and 1001. *)
Definition abnormal_close (e : Event) : bool :=
  match e with
  | SocketClose code => negb (code =? 1000)%Z && negb (code =? 1001)%Z
  | _ => false
  end.

(** The event is a click on the start button. *)
Definition is_start (e : Event) : bool :=
  match e with
  | ClickStart => true
  | _ => false
  end.

(** Every Start is committed: the settling of a request, where [startCall]
    connects and sets [ws], is directly followed by the commit of the render
    it causes. *)
Fixpoint starts_committed (events : list Event) : Prop :=
  match events with
  | [] => True
  | FetchSettled _ :: rest =>
      match rest with
      | Commit :: rest' => starts_committed rest'
      | _ => False
      end
  | _ :: rest => starts_committed rest
  end.

(** Consecutive sources do not overlap: each one starts at or after the end
    of the one before it, for buffers played at [rate] frames per second. *)
Fixpoint spaced (rate : positive) (l : list Scheduled) : Prop :=
  match l with
  | [] => True
  | x :: rest =>
      match rest with
      | [] => True
      | y :: _ =>
          (startTime x + inject_Z (Z.of_nat (length (buffer x)))
                         / inject_Z (Zpos rate) <= startTime y)%Q
      end /\ spaced rate rest
  end.

(** ** Sample inputs *)

(** No Web Audio call throws. *)
Definition webaudio_ok : AudioContext -> AudioQueueItem -> bool :=
  fun _ _ => false.

(** Every URL is accepted by the [WebSocket] constructor. *)
Definition websocket_ok : string -> option string := fun _ => None.

(** The 4-byte frame holding the samples 16384 and -16384. *)
Definition frame_half : ArrayBuffer := ["000"; "@"; "000"; "192"]%byte.

(** A frame of 128 silent samples, the shortest one the validator accepts. *)
Definition frame_silence : ArrayBuffer := repeat "000"%byte 256.

(** A frame of 128 samples that all have the byte [b] as their low and high
    byte. *)
Definition frame_tone (b : byte) : ArrayBuffer := repeat b 256.

(** A chunk of 128 silent samples. *)
Definition silence_item : AudioQueueItem :=
  {| data := repeat 0%Q 128; timestamp := 0 |}.

(** A running context at 16 kHz whose clock reads [t]. *)
Definition ctx16k (t : Q) : AudioContext :=
  {| sampleRate := 16000; currentTime := t; state := running |}.

(** An audio side with the given queue and cursor and nothing started. *)
Definition audio_with (t cursor : Q) (q : list AudioQueueItem) : Audio :=
  {| audioContextRef := Some (ctx16k t); audioQueueRef := q;
     nextPlayTimeRef := cursor; started := [] |}.

(** The text [{"type":"call-ended"}]. *)
Definition call_ended_text : string :=
  let q := String (ascii_of_nat 34) EmptyString in
  String.concat ""
    ["{"; q; "type"; q; ":"; q; "call-ended"; q; "}"].

(** A [JSON.parse] that knows this one text. *)
Definition sample_parse (raw : string) : option Json :=
  if String.eqb raw call_ended_text
  then Some (JObj [("type", JStr "call-ended")])
  else None.

(** A successful origination. *)
Definition origination_ok : FetchOutcome :=
  Response true 200
    (Body (Some "wss://stream.example/listen") (Some "call-1") None).

(** The component after a successful Start, before the render is
    committed. *)
Definition connected : State :=
  run webaudio_ok sample_parse websocket_ok
      [ClickStart; FetchSettled origination_ok] initial_state.

(** Start, commit, and the socket opens with a running context whose clock
    reads 0: the component is listening. *)
Definition listening : State :=
  run webaudio_ok sample_parse websocket_ok
      [ClickStart; FetchSettled origination_ok; Commit;
       SocketOpen (Created 16000 0 running)]
      initial_state.


(** ** Facts about the array helpers *)

Lemma slice_last_length {A} n (l : list A) :
  length (Js.slice_last n l) = Nat.min n (length l).
Proof. unfold Js.slice_last. rewrite length_skipn. lia. Qed.

Lemma slice_last_suffix {A} n (l : list A) :
  exists dropped,
    l = dropped ++ Js.slice_last n l /\ length dropped = length l - n.
Proof.
  exists (firstn (length l - n) l). unfold Js.slice_last. split.
  - symmetry. apply firstn_skipn.
  - rewrite length_firstn. lia.
Qed.

(** ** Facts about the validator and the decoder *)

Lemma int16_of_bytes_range lo hi : int16_range (int16_of_bytes lo hi).
Proof.
  unfold int16_range, int16_of_bytes.
  pose proof (Byte.to_N_bounded lo). pose proof (Byte.to_N_bounded hi).
  cbv zeta. destruct (Z.ltb_spec
    (Z.of_N (Byte.to_N lo) + 256 * Z.of_N (Byte.to_N hi)) 32768); lia.
Qed.

Lemma Int16Array_pairs n : forall b,
  byteLength b = 2 * n ->
  exists pcm, Int16Array b = Some pcm /\ length pcm = n
              /\ Forall int16_range pcm.
Proof.
  unfold byteLength.
  induction n as [|n IH]; intros b Hlen.
  - destruct b; [|discriminate]. exists []. repeat split; constructor.
  - destruct b as [|lo [|hi rest]]; simpl in Hlen; try lia.
    destruct (IH rest) as (t & Ht & Hl & Hall); [lia|].
    exists (int16_of_bytes lo hi :: t). simpl Int16Array. rewrite Ht.
    repeat split.
    + simpl. lia.
    + constructor; [apply int16_of_bytes_range | exact Hall].
Qed.

Lemma Int16Array_even b :
  byteLength b mod 2 = 0 ->
  exists pcm, Int16Array b = Some pcm /\ length pcm = byteLength b / 2
              /\ Forall int16_range pcm.
Proof.
  intros Hev. apply Int16Array_pairs.
  pose proof (Nat.div_mod_eq (byteLength b) 2). lia.
Qed.

(** The i-th element of the view is made of the bytes 2i and 2i+1. *)
Lemma Int16Array_nth : forall b pcm i,
  Int16Array b = Some pcm -> i < length pcm ->
  nth i pcm 0%Z
  = int16_of_bytes (nth (2 * i) b "000"%byte) (nth (2 * i + 1) b "000"%byte).
Proof.
  fix IH 1. intros b pcm i Hb Hi.
  destruct b as [|lo [|hi rest]]; simpl in Hb.
  - injection Hb as <-. simpl in Hi. lia.
  - discriminate.
  - destruct (Int16Array rest) as [t|] eqn:E; [|discriminate].
    injection Hb as <-. destruct i as [|i]; [reflexivity|].
    simpl in Hi. cbn [nth].
    replace (2 * S i) with (S (S (2 * i))) by lia.
    replace (S (S (2 * i)) + 1) with (S (S (2 * i + 1))) by lia.
    cbn [nth]. apply (IH rest t i E). lia.
Qed.

(** An odd byte length makes the view constructor throw. *)
Lemma Int16Array_odd b :
  byteLength b mod 2 <> 0 -> Int16Array b = None.
Proof.
  unfold byteLength. intros Hodd.
  assert (H : exists n, length b = 2 * n + 1).
  { exists (length b / 2). pose proof (Nat.div_mod_eq (length b) 2).
    pose proof (Nat.mod_upper_bound (length b) 2). lia. }
  destruct H as [n Hn]. clear Hodd. revert b Hn.
  induction n as [|n IH]; intros b Hn.
  - destruct b as [|x [|y r]]; simpl in Hn; try lia. reflexivity.
  - destruct b as [|lo [|hi rest]]; simpl in Hn; try lia.
    simpl. rewrite IH by lia. reflexivity.
Qed.

Lemma pcm_to_float_bounds x :
  (-1 <= pcm_to_float x)%Q /\ (pcm_to_float x <= 1)%Q.
Proof.
  unfold pcm_to_float. split.
  - apply Q.le_max_l.
  - apply Q.max_lub; [discriminate | apply Q.le_min_l].
Qed.

(** On 16-bit input the clamp never fires: the quotient is already in
    [-1, 1). *)
Lemma pcm_to_float_exact x :
  int16_range x -> (pcm_to_float x == inject_Z x / 32768)%Q.
Proof.
  unfold int16_range, pcm_to_float. intros [Hlo Hhi].
  assert (H1 : (inject_Z x / 32768 <= 1)%Q).
  { unfold Qdiv, Qle, Qmult, Qinv, inject_Z. simpl. lia. }
  assert (H2 : (-1 <= inject_Z x / 32768)%Q).
  { unfold Qdiv, Qle, Qmult, Qinv, inject_Z. simpl. lia. }
  rewrite (Q.min_r _ _ H1). rewrite (Q.max_r _ _ H2). reflexivity.
Qed.

Lemma validate_true_iff d :
  validateAudioData (Some d) = true <->
  byteLength d mod 2 = 0 /\ 128 <= byteLength d / 2.
Proof.
  unfold validateAudioData.
  destruct (Nat.eqb_spec (byteLength d) 0) as [E0|E0].
  - rewrite E0. simpl. split; [discriminate | lia].
  - destruct (Nat.eqb_spec (byteLength d mod 2) 0) as [E2|E2]; cbn [negb].
    + cbv zeta. destruct (Nat.ltb_spec (byteLength d / 2) 128).
      * split; [discriminate | lia].
      * split; [intros _; split; assumption | reflexivity].
    + split; [discriminate | intros [H _]; contradiction].
Qed.

(** C4.  [validateAudioData] is total (it returns a boolean on every input,
    the null buffer included) and returns [false] exactly when the buffer is
    null or empty, or its byte length is odd, or it holds fewer than 128
    16-bit samples; in every other case it returns [true]. *)
Theorem validate_rejects_exactly (data : option ArrayBuffer) :
  (validateAudioData data = false <->
     data = None \/
     exists d, data = Some d /\
       (byteLength d = 0 \/ byteLength d mod 2 <> 0 \/ byteLength d / 2 < 128))
  /\ (validateAudioData data = false \/ validateAudioData data = true).
Proof.
  split.
  - destruct data as [d|].
    + pose proof (validate_true_iff d) as Ht.
      destruct (validateAudioData (Some d)) eqn:E.
      * split; [discriminate|].
        intros [Hn | (d' & Hd & Hbad)]; [discriminate|].
        injection Hd as <-. destruct Ht as [Ht _].
        destruct (Ht eq_refl) as [Hev Hlen].
        destruct Hbad as [H0 | [Hodd | Hshort]]; [|contradiction|lia].
        rewrite H0 in Hlen. simpl in Hlen. lia.
      * split; [|reflexivity]. intros _. right. exists d. split; [reflexivity|].
        destruct (Nat.eq_dec (byteLength d mod 2) 0) as [Hev|Hodd];
          [|right; left; exact Hodd].
        right; right.
        destruct (Nat.lt_ge_cases (byteLength d / 2) 128) as [Hlt|Hge];
          [exact Hlt|].
        destruct Ht as [_ Ht]. discriminate Ht. split; assumption.
    + split; [intros _; left; reflexivity | reflexivity].
  - destruct (validateAudioData data); [right | left]; reflexivity.
Qed.

(** The handler never decodes the 4-byte frame: the validator rejects it. *)
Lemma frame_half_rejected : validateAudioData (Some frame_half) = false.
Proof. reflexivity. Qed.

(** C3.  For every frame the validator accepts, the conversion of lines
    159-172 succeeds and yields [byteLength / 2] samples; with [int16_i] the
    16-bit integer held in bytes 2i and 2i+1 of the frame, the i-th sample is
    [max(-1, min(1, int16_i / 32768))], equals [int16_i / 32768] and lies in
    [-1, 1]; and the conversion of the 4-byte frame holding the 16-bit values
    16384 and -16384 yields [0.5; -0.5]. *)
Theorem decode_valid_frame :
  (forall frame,
      validateAudioData (Some frame) = true ->
      exists pcm out,
        Int16Array frame = Some pcm /\ decode frame = Some out /\
        length out = byteLength frame / 2 /\
        (forall i, i < byteLength frame / 2 ->
                   nth i pcm 0%Z
                   = int16_of_bytes (nth (2 * i) frame "000"%byte)
                                    (nth (2 * i + 1) frame "000"%byte)) /\
        out = map (fun x => Qmax (-1) (Qmin 1 (inject_Z x / 32768))%Q) pcm /\
        Forall2 (fun y x => (y == inject_Z x / 32768)%Q) out pcm /\
        Forall (fun y => (-1 <= y)%Q /\ (y <= 1)%Q) out)
  /\ Int16Array frame_half = Some [16384; -16384]%Z
  /\ exists out, decode frame_half = Some out /\
                 Forall2 Qeq out [1 # 2; - (1 # 2)]%Q.
Proof.
  split; [|split].
  - intros frame Hv. apply validate_true_iff in Hv. destruct Hv as [Hev _].
    destruct (Int16Array_even frame Hev) as (pcm & Hpcm & Hlen & Hrange).
    exists pcm, (to_float32 pcm). unfold decode. rewrite Hpcm.
    repeat split.
    + unfold to_float32. rewrite length_map. exact Hlen.
    + intros i Hi. apply Int16Array_nth; [exact Hpcm | lia].
    + clear Hpcm Hlen. induction Hrange as [|x l Hx _ IH]; simpl.
      * constructor.
      * constructor; [apply pcm_to_float_exact; exact Hx | exact IH].
    + unfold to_float32. apply Forall_forall. intros y Hy.
      apply in_map_iff in Hy. destruct Hy as (x & <- & _).
      apply pcm_to_float_bounds.
  - reflexivity.
  - eexists. split; [reflexivity|].
    repeat constructor; reflexivity.
Qed.

(** C3 on the frame of 128 silent samples. *)
Lemma decode_valid_frame_witness :
  validateAudioData (Some frame_silence) = true /\
  exists pcm out,
    Int16Array frame_silence = Some pcm /\ decode frame_silence = Some out /\
    length out = byteLength frame_silence / 2 /\
    (forall i, i < byteLength frame_silence / 2 ->
               nth i pcm 0%Z
               = int16_of_bytes (nth (2 * i) frame_silence "000"%byte)
                                (nth (2 * i + 1) frame_silence "000"%byte)) /\
    out = map (fun x => Qmax (-1) (Qmin 1 (inject_Z x / 32768))%Q) pcm /\
    Forall2 (fun y x => (y == inject_Z x / 32768)%Q) out pcm /\
    Forall (fun y => (-1 <= y)%Q /\ (y <= 1)%Q) out.
Proof.
  split; [reflexivity|].
  apply (proj1 decode_valid_frame frame_silence). reflexivity.
Defined.

(** ** Facts about the scheduler *)

Lemma Subseq_nil_l {A} (l : list A) : Subseq [] l.
Proof. induction l; constructor; assumption. Qed.

Lemma Subseq_app_skip {A} (pre l1 l2 : list A) :
  Subseq l1 l2 -> Subseq l1 (pre ++ l2).
Proof. intros H. induction pre; simpl; [exact H | constructor; exact IHpre]. Qed.

Lemma Subseq_slice_last {A B} (f : A -> B) n l1 (l2 : list A) :
  Subseq l1 (map f (Js.slice_last n l2)) -> Subseq l1 (map f l2).
Proof.
  intros H. destruct (slice_last_suffix n l2) as (pre & E & _).
  rewrite E at 1. rewrite map_app. apply Subseq_app_skip. exact H.
Qed.

Lemma duration_nonneg ctx n : (0 <= duration ctx n)%Q.
Proof.
  unfold duration, Qdiv, Qle, Qmult, Qinv, inject_Z. simpl. lia.
Qed.

Lemma total_duration_nonneg ctx chunks : (0 <= total_duration ctx chunks)%Q.
Proof.
  induction chunks as [|c r IH]; simpl; [discriminate|].
  pose proof (duration_nonneg ctx (length c)). lra.
Qed.

Lemma back_to_back_buffers ctx now : forall chunks t,
  map buffer (fst (back_to_back ctx now t chunks)) = chunks.
Proof.
  induction chunks as [|c r IH]; intros t; simpl; [reflexivity|].
  specialize (IH (Qmax now t + duration ctx (length c))%Q).
  destruct (back_to_back ctx now _ r) as [l t']. simpl in *. now rewrite IH.
Qed.

(** The cursor only moves forward, and every start time lies between the
    first possible start and the final cursor. *)
Lemma back_to_back_bounds ctx now : forall chunks t,
  (t <= snd (back_to_back ctx now t chunks))%Q /\
  Forall (fun s => (Qmax now t <= startTime s)%Q /\
                   (startTime s <= snd (back_to_back ctx now t chunks))%Q)
         (fst (back_to_back ctx now t chunks)).
Proof.
  induction chunks as [|c r IH]; intros t; simpl.
  - split; [apply Qle_refl | constructor].
  - specialize (IH (Qmax now t + duration ctx (length c))%Q).
    destruct (back_to_back ctx now _ r) as [l t']. simpl in *.
    destruct IH as [Hle Hall].
    pose proof (duration_nonneg ctx (length c)) as Hd.
    pose proof (Q.le_max_r now t) as Hm.
    pose proof (Q.le_max_l now t) as Hn.
    split; [lra|]. constructor.
    + simpl. split; [apply Qle_refl | lra].
    + eapply Forall_impl; [|exact Hall]. intros s [H1 H2]. split; [|exact H2].
      pose proof (Q.le_max_r now (Qmax now t + duration ctx (length c))%Q). lra.
Qed.

Lemma back_to_back_sorted ctx now : forall chunks t,
  StronglySorted Qle (map startTime (fst (back_to_back ctx now t chunks))).
Proof.
  induction chunks as [|c r IH]; intros t; simpl; [constructor|].
  pose proof (back_to_back_bounds ctx now r
                (Qmax now t + duration ctx (length c))%Q) as [_ Hall].
  specialize (IH (Qmax now t + duration ctx (length c))%Q).
  destruct (back_to_back ctx now _ r) as [l t']. simpl in *.
  constructor; [exact IH|].
  apply Forall_map. eapply Forall_impl; [|exact Hall]. intros s [H1 _].
  pose proof (duration_nonneg ctx (length c)).
  pose proof (Q.le_max_r now (Qmax now t + duration ctx (length c))%Q). lra.
Qed.

(** Once the cursor is at or after the clock reading, the clock no longer
    matters: the schedule is the plain running sum. *)
Lemma back_to_back_final_ahead ctx now : forall chunks t,
  (now <= t)%Q ->
  (snd (back_to_back ctx now t chunks) == t + total_duration ctx chunks)%Q.
Proof.
  induction chunks as [|c r IH]; intros t Ht; simpl.
  - lra.
  - pose proof (duration_nonneg ctx (length c)) as Hd.
    pose proof (Q.max_r now t Ht) as Hm.
    specialize (IH (Qmax now t + duration ctx (length c))%Q).
    destruct (back_to_back ctx now _ r) as [l t']. simpl in *.
    rewrite IH by lra. lra.
Qed.

Lemma back_to_back_final ctx now chunks t :
  chunks <> [] ->
  (snd (back_to_back ctx now t chunks)
   == Qmax now t + total_duration ctx chunks)%Q.
Proof.
  destruct chunks as [|c r]; [congruence|]. intros _. simpl.
  pose proof (back_to_back_final_ahead ctx now r
                (Qmax now t + duration ctx (length c))%Q) as H.
  destruct (back_to_back ctx now _ r) as [l t']. simpl in *.
  pose proof (duration_nonneg ctx (length c)).
  pose proof (Q.le_max_l now t).
  rewrite H by lra. lra.
Qed.

(** The k-th source starts at the first start time plus the durations of the
    chunks before it. *)
Lemma back_to_back_nth ctx now : forall chunks t k s,
  nth_error (fst (back_to_back ctx now t chunks)) k = Some s ->
  (startTime s == Qmax now t + total_duration ctx (firstn k chunks))%Q.
Proof.
  induction chunks as [|c r IH]; intros t k s Hk; simpl in Hk.
  - destruct k; discriminate.
  - pose proof (IH (Qmax now t + duration ctx (length c))%Q) as IH'.
    destruct (back_to_back ctx now _ r) as [l t'] eqn:E. simpl in *.
    destruct k as [|k]; simpl in *.
    + injection Hk as <-. simpl. lra.
    + specialize (IH' k s). simpl in IH'.
      rewrite (IH' Hk).
      pose proof (duration_nonneg ctx (length c)).
      pose proof (Q.le_max_l now t).
      rewrite Q.max_r by lra. lra.
Qed.

Section SchedulerFacts.

Variable webaudio_throws : AudioContext -> AudioQueueItem -> bool.

Lemma drain_nil ctx now a :
  audioQueueRef a = [] -> drain webaudio_throws ctx now a = a.
Proof.
  destruct a as [c q t l]. cbn [audioQueueRef]. intros ->.
  rewrite drain_equation_1. reflexivity.
Qed.

Lemma drain_cons ctx now a item rest :
  audioQueueRef a = item :: rest ->
  drain webaudio_throws ctx now a =
  drain webaudio_throws ctx now
        (drain_body webaudio_throws ctx now item (set_audioQueue rest a)).
Proof.
  destruct a as [c q t l]. cbn [audioQueueRef]. intros ->.
  rewrite drain_equation_1 at 1. reflexivity.
Qed.

Lemma drain_body_skip ctx now item a :
  playable webaudio_throws ctx item = false ->
  drain_body webaudio_throws ctx now item a = a.
Proof.
  unfold playable, drain_body.
  destruct (length (data item) =? 0); [reflexivity|].
  destruct (length (data item) <? 128); [reflexivity|].
  destruct (webaudio_throws ctx item); [reflexivity|]. discriminate.
Qed.

Lemma drain_body_play ctx now item a :
  playable webaudio_throws ctx item = true ->
  drain_body webaudio_throws ctx now item a =
  {| audioContextRef := audioContextRef a;
     audioQueueRef :=
       if 50 <? length (audioQueueRef a)
       then Js.slice_last 25 (audioQueueRef a) else audioQueueRef a;
     nextPlayTimeRef :=
       (Qmax now (nextPlayTimeRef a) + duration ctx (length (data item)))%Q;
     started :=
       started a ++ [{| startTime := Qmax now (nextPlayTimeRef a);
                        buffer := data item |}] |}.
Proof.
  unfold playable, drain_body.
  destruct (length (data item) =? 0); [discriminate|].
  destruct (length (data item) <? 128); [discriminate|].
  destruct (webaudio_throws ctx item); [discriminate|]. intros _.
  cbv zeta. cbn [set_nextPlayTime log_start audioQueueRef].
  destruct (50 <? length (audioQueueRef a)); reflexivity.
Qed.

Lemma drain_body_queue ctx now item a :
  length (audioQueueRef (drain_body webaudio_throws ctx now item a))
  <= length (audioQueueRef a).
Proof.
  destruct (playable webaudio_throws ctx item) eqn:E.
  - rewrite drain_body_play by exact E. cbn [audioQueueRef].
    destruct (50 <? length (audioQueueRef a)); [|lia].
    rewrite slice_last_length. lia.
  - rewrite drain_body_skip by exact E. lia.
Qed.

(** Induction along the iterations of the loop. *)
Lemma drain_loop_ind ctx now (P : Audio -> Prop) :
  (forall a, audioQueueRef a = [] -> P a) ->
  (forall a item rest,
      audioQueueRef a = item :: rest ->
      P (drain_body webaudio_throws ctx now item (set_audioQueue rest a)) ->
      P a) ->
  forall a, P a.
Proof.
  intros Hnil Hcons a.
  remember (length (audioQueueRef a)) as n eqn:Hn.
  revert a Hn. induction n as [n IH] using lt_wf_ind. intros a Hn.
  destruct (audioQueueRef a) as [|item rest] eqn:E.
  - apply Hnil. exact E.
  - apply (Hcons a item rest E).
    apply (IH (length (audioQueueRef
                 (drain_body webaudio_throws ctx now item (set_audioQueue rest a))))).
    + pose proof (drain_body_queue ctx now item (set_audioQueue rest a)) as H.
      cbn [set_audioQueue audioQueueRef] in H. subst n. simpl. lia.
    + reflexivity.
Qed.

(** What one run of the loop does: the queue ends empty, the context is
    untouched, and the chunks that were started form a subsequence of the
    queue scheduled back to back from the cursor; when the queue held at most
    51 items nothing is evicted and the started chunks are exactly the
    playable ones. *)
Lemma drain_spec ctx now a :
  exists chunks,
    Subseq chunks (map data (audioQueueRef a)) /\
    (length (audioQueueRef a) <= 51 ->
     chunks = map data (filter (playable webaudio_throws ctx) (audioQueueRef a))) /\
    drain webaudio_throws ctx now a =
    {| audioContextRef := audioContextRef a;
       audioQueueRef := [];
       nextPlayTimeRef :=
         snd (back_to_back ctx now (nextPlayTimeRef a) chunks);
       started :=
         started a ++ fst (back_to_back ctx now (nextPlayTimeRef a) chunks) |}.
Proof.
  pattern a. apply (drain_loop_ind ctx now); clear a.
  - intros a E. exists []. rewrite E. split; [constructor|]. split; [reflexivity|].
    rewrite (drain_nil _ _ _ E). simpl. rewrite app_nil_r.
    destruct a; simpl in *. now subst.
  - intros a item rest E (chunks & Hsub & Hexact & Hrun).
    rewrite (drain_cons _ _ _ _ _ E), Hrun, E. clear Hrun.
    destruct (playable webaudio_throws ctx item) eqn:Hp.
    + rewrite drain_body_play in * by exact Hp.
      cbn [set_audioQueue audioQueueRef audioContextRef nextPlayTimeRef started] in *.
      exists (data item :: chunks). split; [|split].
      * simpl. apply Subseq_keep.
        destruct (50 <? length rest); [|exact Hsub].
        eapply Subseq_slice_last. exact Hsub.
      * intros Hlen. simpl in Hlen. simpl. rewrite Hp. simpl. f_equal.
        destruct (Nat.ltb_spec 50 (length rest)) as [Hgt|Hle]; [lia|].
        apply Hexact. lia.
      * simpl.
        destruct (back_to_back ctx now
                    (Qmax now (nextPlayTimeRef a) + duration ctx (length (data item)))%Q
                    chunks) as [l t'].
        simpl. rewrite <- app_assoc. reflexivity.
    + rewrite drain_body_skip in * by exact Hp.
      cbn [set_audioQueue audioQueueRef audioContextRef nextPlayTimeRef started] in *.
      exists chunks. split; [|split].
      * simpl. apply Subseq_skip. exact Hsub.
      * intros Hlen. simpl in Hlen. simpl. rewrite Hp. apply Hexact. lia.
      * reflexivity.
Qed.

Lemma processAudioQueue_spec a ctx :
  audioContextRef a = Some ctx ->
  exists chunks,
    Subseq chunks (map data (audioQueueRef a)) /\
    (length (audioQueueRef a) <= 51 ->
     chunks = map data (filter (playable webaudio_throws ctx) (audioQueueRef a))) /\
    processAudioQueue webaudio_throws a =
    {| audioContextRef := Some ctx;
       audioQueueRef := [];
       nextPlayTimeRef :=
         snd (back_to_back ctx (currentTime ctx) (nextPlayTimeRef a) chunks);
       started :=
         started a ++
         fst (back_to_back ctx (currentTime ctx) (nextPlayTimeRef a) chunks) |}.
Proof.
  intros Hctx. unfold processAudioQueue. rewrite Hctx.
  destruct (audioQueueRef a) as [|item rest] eqn:E.
  - exists []. simpl. split; [constructor|]. split; [reflexivity|].
    rewrite app_nil_r. destruct a; simpl in *. now subst.
  - cbn [length Nat.eqb].
    destruct (drain_spec ctx (currentTime ctx) a) as (chunks & H1 & H2 & H3).
    rewrite E in H1, H2. exists chunks. split; [exact H1|]. split; [exact H2|].
    rewrite H3, Hctx. reflexivity.
Qed.

End SchedulerFacts.

(** ** Facts about the handlers: the audio side *)

Lemma StronglySorted_Qle_app l1 l2 :
  StronglySorted Qle l1 -> StronglySorted Qle l2 ->
  (forall x y, In x l1 -> In y l2 -> (x <= y)%Q) ->
  StronglySorted Qle (l1 ++ l2).
Proof.
  intros H1 H2 H. induction H1 as [|x l Hl IH Hx]; simpl; [exact H2|].
  constructor.
  - apply IH. intros a b Ha Hb. apply H; [right; exact Ha | exact Hb].
  - apply Forall_app. split; [exact Hx|].
    apply Forall_forall. intros y Hy. apply H; [left; reflexivity | exact Hy].
Qed.

(** Appending a back-to-back schedule that starts from the cursor keeps the
    log of start times ordered and below the new cursor. *)
Lemma schedule_ordered_extend a a' ctx now chunks :
  schedule_ordered a ->
  started a' = started a ++ fst (back_to_back ctx now (nextPlayTimeRef a) chunks) ->
  nextPlayTimeRef a' = snd (back_to_back ctx now (nextPlayTimeRef a) chunks) ->
  schedule_ordered a'.
Proof.
  intros [Hs Hb] Hst Hnpt. unfold schedule_ordered. rewrite Hst, Hnpt.
  pose proof (back_to_back_bounds ctx now chunks (nextPlayTimeRef a)) as [Hle Hall].
  pose proof (back_to_back_sorted ctx now chunks (nextPlayTimeRef a)) as Hnew.
  split.
  - rewrite map_app. apply StronglySorted_Qle_app; [exact Hs | exact Hnew |].
    intros x y Hx Hy.
    apply in_map_iff in Hx. destruct Hx as (sx & <- & Hx).
    apply in_map_iff in Hy. destruct Hy as (sy & <- & Hy).
    rewrite Forall_forall in Hb, Hall.
    specialize (Hb sx Hx). destruct (Hall sy Hy) as [H1 _].
    pose proof (Q.le_max_r now (nextPlayTimeRef a)). lra.
  - apply Forall_app. split.
    + eapply Forall_impl; [|exact Hb]. intros s Hsle. simpl in Hsle. lra.
    + eapply Forall_impl; [|exact Hall]. intros s [_ H2]. exact H2.
Qed.

Section ComponentFacts.

Variable webaudio_throws : AudioContext -> AudioQueueItem -> bool.
Variable JSON_parse : string -> option Json.
Variable WebSocket_throws : string -> option string.

Local Abbreviation step' := (step webaudio_throws JSON_parse WebSocket_throws).
Local Abbreviation run' := (run webaudio_throws JSON_parse WebSocket_throws).
Local Abbreviation onmessage' := (onmessage webaudio_throws JSON_parse).
Local Abbreviation startCall' := (startCall WebSocket_throws).
Local Abbreviation startCall_settled' := (startCall_settled WebSocket_throws).
Local Abbreviation onfetch' := (onfetch WebSocket_throws).
Local Abbreviation connectWebSocket' := (connectWebSocket WebSocket_throws).
Local Abbreviation reconnect' := (reconnect WebSocket_throws).
Local Abbreviation elapse' := (elapse WebSocket_throws).

Lemma audio_connectWebSocket u s : audio (fst (connectWebSocket' u s)) = audio s.
Proof.
  unfold connectWebSocket.
  destruct (WebSocket_throws u); reflexivity.
Qed.

Lemma audio_startCall_settled r s : audio (startCall_settled' r s) = audio s.
Proof.
  unfold startCall_settled.
  destruct r as [m | ok status body]; [reflexivity|].
  destruct ok; cbn [negb].
  - destruct body as [m | [u|] c e]; try reflexivity.
    destruct (String.eqb u ""); [reflexivity|].
    pose proof (audio_connectWebSocket u s) as H.
    destruct (connectWebSocket WebSocket_throws u _) as [s1 [m|]];
      simpl in *; exact H.
  - destruct body as [m | u c [e|]]; try reflexivity.
    destruct (String.eqb e ""); reflexivity.
Qed.

Lemma audio_startCall r s : audio (startCall' r s) = audio s.
Proof. unfold startCall. rewrite audio_startCall_settled. reflexivity. Qed.

Lemma audio_onfetch r s : audio (onfetch' r s) = audio s.
Proof.
  unfold onfetch. destruct (pending_fetches s); [reflexivity|].
  rewrite audio_startCall_settled. reflexivity.
Qed.

Lemma fold_reconnect_inv (P : State -> Prop) :
  (forall s, P s -> P (reconnect' s)) ->
  forall (l : list (nat * nat)) s,
    P s -> P (fold_left (fun s' _ => reconnect' s') l s).
Proof.
  intros Hstep l. induction l as [|x l IH]; intros s Hs; simpl; [exact Hs|].
  apply IH. apply Hstep. exact Hs.
Qed.

Lemma audio_elapse ms s : audio (elapse' ms s) = audio s.
Proof.
  unfold elapse.
  apply (fold_reconnect_inv (fun s' => audio s' = audio s)).
  - intros s' H. unfold reconnect.
    rewrite <- H. apply audio_connectWebSocket.
  - reflexivity.
Qed.

Lemma audio_onclose code s : audio (onclose code s) = audio s.
Proof.
  unfold onclose.
  destruct (negb (code =? 1000)%Z && negb (code =? 1001)%Z && _); reflexivity.
Qed.

Lemma audio_stopListening w s :
  audioQueueRef (audio (stopListening w s)) = [] /\
  started (audio (stopListening w s)) = started (audio s) /\
  nextPlayTimeRef (audio (stopListening w s)) = nextPlayTimeRef (audio s).
Proof.
  unfold stopListening. destruct w as [id|]; cbn.
  - destruct (audioContextRef (audio s)) as [c|]; [destruct (state c)|];
      cbn; auto.
  - destruct (audioContextRef (audio s)) as [c|]; [destruct (state c)|];
      cbn; auto.
Qed.

Lemma audio_commit s :
  audioQueueRef (audio s) = [] ->
  audioQueueRef (audio (commit s)) = [] /\
  started (audio (commit s)) = started (audio s) /\
  nextPlayTimeRef (audio (commit s)) = nextPlayTimeRef (audio s).
Proof.
  intros Hq. unfold commit.
  destruct (ws (view s)) as [a|], (rendered_ws s) as [b|];
    try destruct (a =? b); auto;
    cbn [set_rendered_ws audio]; apply audio_stopListening.
Qed.

Lemma audio_tick t s :
  audioQueueRef (audio (tick_audio t s)) = audioQueueRef (audio s) /\
  started (audio (tick_audio t s)) = started (audio s) /\
  nextPlayTimeRef (audio (tick_audio t s)) = nextPlayTimeRef (audio s).
Proof.
  unfold tick_audio. destruct (audioContextRef (audio s)); cbn; auto.
Qed.

Lemma audio_audio_state st s :
  audioQueueRef (audio (audio_state st s)) = audioQueueRef (audio s) /\
  started (audio (audio_state st s)) = started (audio s) /\
  nextPlayTimeRef (audio (audio_state st s)) = nextPlayTimeRef (audio s).
Proof.
  unfold audio_state. destruct (audioContextRef (audio s)); cbn; auto.
Qed.

Lemma audio_initAudioContext i s :
  audioQueueRef (audio (fst (initAudioContext i s))) = audioQueueRef (audio s) /\
  started (audio (fst (initAudioContext i s))) = started (audio s).
Proof.
  unfold initAudioContext.
  destruct (audioContextRef (audio s)) as [c|]; [destruct (state c)|];
    destruct i as [|rate t st]; cbn; auto;
    destruct st; cbn; auto.
Qed.

Lemma audio_onopen i s :
  audioQueueRef (audio (onopen i s)) = audioQueueRef (audio s) /\
  started (audio (onopen i s)) = started (audio s).
Proof.
  unfold onopen.
  pose proof (audio_initAudioContext i (setListenStatus "Listening..." s)) as H.
  destruct (initAudioContext i _) as [s1 [|]]; exact H.
Qed.

Lemma audio_onresume ok s :
  audioQueueRef (audio (onresume ok s)) = audioQueueRef (audio s) /\
  started (audio (onresume ok s)) = started (audio s).
Proof.
  unfold onresume. destruct (pending_resumes s); [auto|].
  unfold initAudioContext_resumed. destruct ok; cbn; auto.
  destruct (audioContextRef (audio s)); cbn; auto.
Qed.

(** What the message handler does to the audio side when the queue is empty
    on entry, which it always is: at most the chunk of the frame is started,
    back to back from the cursor, and the queue is empty again. *)
Lemma audio_onmessage m ts s :
  audioQueueRef (audio s) = [] ->
  exists ctx now chunks,
    Subseq chunks (chunks_of_events [SocketMessage m ts]) /\
    started (audio (onmessage' m ts s)) =
      started (audio s) ++
      fst (back_to_back ctx now (nextPlayTimeRef (audio s)) chunks) /\
    nextPlayTimeRef (audio (onmessage' m ts s)) =
      snd (back_to_back ctx now (nextPlayTimeRef (audio s)) chunks) /\
    audioQueueRef (audio (onmessage' m ts s)) = [].
Proof.
  intros Hq.
  set (dummy := {| sampleRate := 1; currentTime := 0; state := closed |}).
  assert (Hsame : forall s', audioQueueRef (audio s') = [] ->
            started (audio s') = started (audio s) ->
            nextPlayTimeRef (audio s') = nextPlayTimeRef (audio s) ->
            exists ctx now chunks,
              Subseq chunks (chunks_of_events [SocketMessage m ts]) /\
              started (audio s') =
                started (audio s) ++
                fst (back_to_back ctx now (nextPlayTimeRef (audio s)) chunks) /\
              nextPlayTimeRef (audio s') =
                snd (back_to_back ctx now (nextPlayTimeRef (audio s)) chunks) /\
              audioQueueRef (audio s') = []).
  { intros s' H1 H2 H3. exists dummy, 0%Q, [].
    split; [apply Subseq_nil_l|]. cbn [back_to_back fst snd].
    rewrite app_nil_r. auto. }
  unfold onmessage.
  destruct (audioContextRef (audio s)) as [ctx|] eqn:Hctx; [|apply Hsame; auto].
  destruct m as [d | raw].
  - destruct (validateAudioData (Some d)) eqn:Hv; cbn [negb];
      [|apply Hsame; auto].
    destruct (byteLength d =? 0); [apply Hsame; auto|].
    destruct (Int16Array d) as [pcm|] eqn:Hpcm; [|apply Hsame; auto].
    destruct (length pcm =? 0); [apply Hsame; auto|].
    destruct (length (to_float32 pcm) =? 0); [apply Hsame; auto|].
    cbn [with_audio audio].
    set (item := {| data := to_float32 pcm; timestamp := ts |}).
    destruct (processAudioQueue_spec webaudio_throws (enqueue item (audio s)) ctx)
      as (chunks & Hsub & _ & Hrun); [exact Hctx|].
    rewrite Hrun. cbn [enqueue set_audioQueue audioQueueRef nextPlayTimeRef started] in *.
    exists ctx, (currentTime ctx), chunks. repeat split; try reflexivity.
    rewrite Hq in Hsub. unfold Js.push in Hsub. simpl in Hsub.
    unfold chunks_of_events, chunk_of_frame, decode. cbn [flat_map].
    unfold ArrayBuffer in *. rewrite Hv, Hpcm. simpl. exact Hsub.
  - destruct (JSON_parse raw) as [j|]; [|apply Hsame; auto].
    destruct (is_call_ended j) as [[|]|];
      [|apply Hsame; auto|apply Hsame; auto].
    unfold stopListening_at_mount.
    destruct (audio_stopListening None (setCallStatus "Call ended" s))
      as (H1 & H2 & H3).
    apply Hsame; assumption.
Qed.

Lemma audio_step_queue e s :
  audioQueueRef (audio s) = [] -> audioQueueRef (audio (step' e s)) = [].
Proof.
  intros Hq. destruct e; cbn [step].
  - destruct (rendered_ws s); exact Hq.
  - change (audioQueueRef (audio (onfetch' r s)) = []).
    rewrite audio_onfetch. exact Hq.
  - destruct (rendered_ws s); [|exact Hq]. apply audio_stopListening.
  - apply audio_commit. exact Hq.
  - destruct (audio_onopen i s) as [H _]. rewrite H. exact Hq.
  - destruct (audio_onresume ok s) as [H _]. rewrite H. exact Hq.
  - destruct (audio_onmessage m date_now s Hq) as (_ & _ & _ & _ & _ & _ & H).
    exact H.
  - rewrite audio_onclose. exact Hq.
  - exact Hq.
  - change (audioQueueRef (audio (elapse' ms s)) = []).
    rewrite audio_elapse. exact Hq.
  - destruct (audio_tick t s) as [H _]. rewrite H. exact Hq.
  - destruct (audio_audio_state st s) as [H _]. rewrite H. exact Hq.
Qed.

(** Between two events the playback queue is empty. *)
Lemma queue_empty_between_events events : forall s,
  audioQueueRef (audio s) = [] -> audioQueueRef (audio (run' events s)) = [].
Proof.
  unfold run.
  induction events as [|e events IH]; intros s Hq; simpl; [exact Hq|].
  apply IH. apply audio_step_queue. exact Hq.
Qed.

Lemma audio_step_schedule e s :
  not_reset e ->
  audioQueueRef (audio s) = [] ->
  exists ctx now chunks,
    Subseq chunks (chunks_of_events [e]) /\
    started (audio (step' e s)) =
      started (audio s) ++
      fst (back_to_back ctx now (nextPlayTimeRef (audio s)) chunks) /\
    nextPlayTimeRef (audio (step' e s)) =
      snd (back_to_back ctx now (nextPlayTimeRef (audio s)) chunks).
Proof.
  intros Hno Hq.
  set (dummy := {| sampleRate := 1; currentTime := 0; state := closed |}).
  assert (Hsame : forall s',
            started (audio s') = started (audio s) ->
            nextPlayTimeRef (audio s') = nextPlayTimeRef (audio s) ->
            exists ctx now chunks,
              Subseq chunks (chunks_of_events [e]) /\
              started (audio s') =
                started (audio s) ++
                fst (back_to_back ctx now (nextPlayTimeRef (audio s)) chunks) /\
              nextPlayTimeRef (audio s') =
                snd (back_to_back ctx now (nextPlayTimeRef (audio s)) chunks)).
  { intros s' H2 H3. exists dummy, 0%Q, [].
    split; [apply Subseq_nil_l|]. cbn [back_to_back fst snd].
    rewrite app_nil_r. auto. }
  destruct e; cbn [step]; try contradiction.
  - destruct (rendered_ws s); apply Hsame; reflexivity.
  - change (onfetch WebSocket_throws r s) with (onfetch' r s).
    apply Hsame; rewrite audio_onfetch; reflexivity.
  - destruct (rendered_ws s); [|apply Hsame; reflexivity].
    destruct (audio_stopListening (Some n) s) as (_ & H2 & H3).
    apply Hsame; assumption.
  - destruct (audio_commit s Hq) as (_ & H2 & H3). apply Hsame; assumption.
  - destruct (audio_onmessage m date_now s Hq) as (ctx & now & chunks & H1 & H2 & H3 & _).
    exists ctx, now, chunks. auto.
  - apply Hsame; rewrite audio_onclose; reflexivity.
  - apply Hsame; reflexivity.
  - change (elapse WebSocket_throws ms s) with (elapse' ms s).
    apply Hsame; rewrite audio_elapse; reflexivity.
  - destruct (audio_tick t s) as (_ & H2 & H3). apply Hsame; assumption.
  - destruct (audio_audio_state st s) as (_ & H2 & H3). apply Hsame; assumption.
Qed.

End ComponentFacts.

(** ** Facts about the handlers: the connection side *)

Section ConnectionFacts.

Variable webaudio_throws : AudioContext -> AudioQueueItem -> bool.
Variable JSON_parse : string -> option Json.
Variable WebSocket_throws : string -> option string.

Local Abbreviation step' := (step webaudio_throws JSON_parse WebSocket_throws).
Local Abbreviation run' := (run webaudio_throws JSON_parse WebSocket_throws).
Local Abbreviation onmessage' := (onmessage webaudio_throws JSON_parse).
Local Abbreviation startCall' := (startCall WebSocket_throws).
Local Abbreviation startCall_settled' := (startCall_settled WebSocket_throws).
Local Abbreviation onfetch' := (onfetch WebSocket_throws).
Local Abbreviation connectWebSocket' := (connectWebSocket WebSocket_throws).
Local Abbreviation reconnect' := (reconnect WebSocket_throws).
Local Abbreviation elapse' := (elapse WebSocket_throws).

(** Clearing the pending reconnect touches nothing but the timer it names
    and the ref that held it. *)
Lemma quiet_clearReconnect n :
  wsUrlRef (clearReconnect n) = wsUrlRef n /\
  nextTimer (clearReconnect n) = nextTimer n /\
  connects (clearReconnect n) = connects n /\
  closeCalls (clearReconnect n) = closeCalls n /\
  clock (clearReconnect n) = clock n /\
  reconnectTimeoutRef (clearReconnect n) = None /\
  incl (timers (clearReconnect n)) (timers n) /\
  (forall id, reconnectTimeoutRef n = Some id ->
              forall t, In t (timers (clearReconnect n)) -> fst t <> id).
Proof.
  unfold clearReconnect. destruct (reconnectTimeoutRef n) as [id|] eqn:E; cbn.
  - repeat split; try reflexivity.
    + intros t Ht. apply filter_In in Ht. tauto.
    + intros id' Hid t Ht. injection Hid as <-.
      apply filter_In in Ht. destruct Ht as [_ Ht].
      apply negb_true_iff, Nat.eqb_neq in Ht. exact Ht.
  - repeat split; try reflexivity; try exact E.
    + apply incl_refl.
    + discriminate.
Qed.

Lemma net_stopListening w s :
  wsUrlRef (net (stopListening w s)) = "" /\
  nextTimer (net (stopListening w s)) = nextTimer (net s) /\
  clock (net (stopListening w s)) = clock (net s) /\
  connects (net (stopListening w s)) = connects (net s) /\
  reconnectTimeoutRef (net (stopListening w s)) = None /\
  timers (net (stopListening w s)) = timers (clearReconnect (net s)) /\
  closeCalls (net (stopListening w s)) =
    closeCalls (net s) ++
    match w with
    | Some socket => [(socket, 1000%Z, "User stopped listening")]
    | None => []
    end.
Proof.
  pose proof (quiet_clearReconnect (net s)) as (H1 & H2 & H3 & H4 & H5 & H6 & _).
  unfold stopListening. destruct w as [id|]; cbn;
    destruct (audioContextRef (audio s)) as [c|]; try destruct (state c); cbn;
    rewrite ?H2, ?H3, ?H4, ?H5, ?H6, ?app_nil_r; repeat split; reflexivity.
Qed.

Lemma view_stopListening w s :
  callStatus (view (stopListening w s)) = "Idle" /\
  listenStatus (view (stopListening w s)) = "Stopped" /\
  isPlaying (view (stopListening w s)) = false /\
  ws (view (stopListening w s)) =
    match w with Some _ => None | None => ws (view s) end /\
  rendered_ws (stopListening w s) = rendered_ws s.
Proof.
  unfold stopListening. destruct w as [id|]; cbn;
    destruct (audioContextRef (audio s)) as [c|]; try destruct (state c); cbn;
    repeat split; reflexivity.
Qed.

Lemma net_connectWebSocket u s :
  net (fst (connectWebSocket' u s)) = log_connect u (set_wsUrl u (net s)).
Proof.
  unfold connectWebSocket. destruct (WebSocket_throws u); reflexivity.
Qed.

Lemma net_reconnect s :
  net (reconnect' s) = log_connect (wsUrlRef (net s)) (net s).
Proof.
  unfold reconnect. rewrite net_connectWebSocket.
  destruct (net s); reflexivity.
Qed.

(** Firing [k] reconnect callbacks in a row. *)
Lemma net_fold_reconnect (l : list (nat * nat)) : forall s,
  net (fold_left (fun s' _ => reconnect' s') l s) =
  fold_left (fun n _ => log_connect (wsUrlRef n) n) l (net s).
Proof.
  induction l as [|x l IH]; intros s; simpl; [reflexivity|].
  rewrite IH, net_reconnect. reflexivity.
Qed.

Lemma fold_log_connect (l : list (nat * nat)) : forall n,
  let n' := fold_left (fun n _ => log_connect (wsUrlRef n) n) l n in
  wsUrlRef n' = wsUrlRef n /\ nextTimer n' = nextTimer n /\
  timers n' = timers n /\ reconnectTimeoutRef n' = reconnectTimeoutRef n /\
  clock n' = clock n /\ closeCalls n' = closeCalls n /\
  connects n' = connects n ++ repeat (wsUrlRef n) (length l).
Proof.
  induction l as [|x l IH]; intros n; simpl.
  - rewrite app_nil_r. repeat split; reflexivity.
  - specialize (IH (log_connect (wsUrlRef n) n)). cbn zeta in IH.
    destruct IH as (H1 & H2 & H3 & H4 & H5 & H6 & H7).
    rewrite H1, H2, H3, H4, H5, H6, H7. cbn.
    rewrite <- app_assoc. repeat split; reflexivity.
Qed.

(** The net after [ms] milliseconds: the clock moved, the due timers are
    gone, and each of them made one connection attempt to the retained
    endpoint. *)
Lemma net_elapse ms s :
  let t := clock (net s) + ms in
  let due := filter (fun x => snd x <=? t) (timers (net s)) in
  wsUrlRef (net (elapse' ms s)) = wsUrlRef (net s) /\
  nextTimer (net (elapse' ms s)) = nextTimer (net s) /\
  reconnectTimeoutRef (net (elapse' ms s)) = reconnectTimeoutRef (net s) /\
  clock (net (elapse' ms s)) = t /\
  closeCalls (net (elapse' ms s)) = closeCalls (net s) /\
  timers (net (elapse' ms s)) =
    filter (fun x => negb (snd x <=? t)) (timers (net s)) /\
  connects (net (elapse' ms s)) =
    connects (net s) ++ repeat (wsUrlRef (net s)) (length due).
Proof.
  cbv zeta. unfold elapse. rewrite net_fold_reconnect.
  match goal with
  | |- context [fold_left _ ?l ?n] =>
      pose proof (fold_log_connect l n) as H
  end.
  cbv zeta in H. destruct H as (H1 & H2 & H3 & H4 & H5 & H6 & H7).
  rewrite H1, H2, H3, H4, H5, H6, H7. cbn. repeat split; reflexivity.
Qed.

Lemma onclose_clean code s :
  (code = 1000 \/ code = 1001 \/ wsUrlRef (net s) = "")%Z ->
  net (onclose code s) = net s.
Proof.
  intros H. unfold onclose. cbn [setIsPlaying setListenStatus with_view net].
  destruct H as [-> | [-> | H]]; [reflexivity | reflexivity |].
  rewrite H. cbn. rewrite !andb_false_r. reflexivity.
Qed.

Lemma onclose_abnormal code s :
  code <> 1000%Z -> code <> 1001%Z -> wsUrlRef (net s) <> "" ->
  net (onclose code s) =
  set_reconnectTimeout (Some (nextTimer (net s)))
    (set_nextTimer (S (nextTimer (net s)))
       (set_timers (timers (net s) ++
                    [(nextTimer (net s), clock (net s) + 2000)]) (net s))) /\
  listenStatus (view (onclose code s)) = "Reconnecting...".
Proof.
  intros H0 H1 Hu. unfold onclose.
  cbn [setIsPlaying setListenStatus with_view net].
  apply Z.eqb_neq in H0, H1. apply String.eqb_neq in Hu.
  rewrite H0, H1, Hu. cbn. split; reflexivity.
Qed.

Lemma net_startCall_failed_url status lu callId error s :
  lu = None \/ lu = Some "" ->
  startCall' (Response true status (Body lu callId error)) s =
  setCallStatus "Call failed: Listen URL not received" s.
Proof.
  intros [-> | ->]; unfold startCall; cbn; destruct s as [[] ? ? ?]; reflexivity.
Qed.

(** What the opening of a socket leaves alone: the connection side up to the
    clearing of the pending reconnect, the call status, the socket held and
    the requests in flight. *)
Lemma onopen_frame i s :
  (net (onopen i s) = net s \/ net (onopen i s) = clearReconnect (net s)) /\
  callStatus (view (onopen i s)) = callStatus (view s) /\
  ws (view (onopen i s)) = ws (view s) /\
  rendered_ws (onopen i s) = rendered_ws s /\
  pending_fetches (onopen i s) = pending_fetches s.
Proof.
  unfold onopen, initAudioContext. cbn [setListenStatus with_view audio].
  destruct (audioContextRef (audio s)) as [c|]; [destruct (state c)|];
    destruct i as [|rate t st]; try destruct st; cbn; auto 6.
Qed.

Lemma onresume_frame ok s :
  (net (onresume ok s) = net s \/ net (onresume ok s) = clearReconnect (net s)) /\
  callStatus (view (onresume ok s)) = callStatus (view s) /\
  ws (view (onresume ok s)) = ws (view s) /\
  rendered_ws (onresume ok s) = rendered_ws s /\
  pending_fetches (onresume ok s) = pending_fetches s.
Proof.
  unfold onresume, initAudioContext_resumed.
  destruct (pending_resumes s); [auto 6|].
  destruct ok; cbn; [destruct (audioContextRef (audio s))|]; cbn; auto 6.
Qed.

Lemma audio_state_frame st s :
  net (audio_state st s) = net s /\ view (audio_state st s) = view s /\
  rendered_ws (audio_state st s) = rendered_ws s /\
  pending_fetches (audio_state st s) = pending_fetches s.
Proof.
  unfold audio_state. destruct (audioContextRef (audio s)); cbn; auto.
Qed.

Lemma tick_audio_frame t s :
  net (tick_audio t s) = net s /\ view (tick_audio t s) = view s /\
  rendered_ws (tick_audio t s) = rendered_ws s /\
  pending_fetches (tick_audio t s) = pending_fetches s.
Proof.
  unfold tick_audio. destruct (audioContextRef (audio s)); cbn; auto.
Qed.

(** What the continuation of [startCall] does to the connection side,
    whatever the request yields. *)
Lemma startCall_settled_cases r s :
  (net (startCall_settled' r s) = net s /\
   ws (view (startCall_settled' r s)) = ws (view s) /\
   exists message,
     callStatus (view (startCall_settled' r s))
     = String.append "Call failed: " message) \/
  exists status url callId error,
    r = Response true status (Body (Some url) callId error) /\
    url <> "" /\
    net (startCall_settled' r s) = log_connect url (set_wsUrl url (net s)) /\
    ((WebSocket_throws url = None /\
      ws (view (startCall_settled' r s)) = Some (length (connects (net s))) /\
      callStatus (view (startCall_settled' r s)) = "Call in progress...") \/
     (exists message,
        WebSocket_throws url = Some message /\
        ws (view (startCall_settled' r s)) = ws (view s) /\
        callStatus (view (startCall_settled' r s))
        = String.append "Call failed: " message)).
Proof.
  unfold startCall_settled.
  destruct r as [m | ok status body]; [solve [left; cbn; eauto]|].
  destruct ok; cbn [negb].
  - destruct body as [m | [u|] c e]; try solve [left; cbn; eauto].
    destruct (String.eqb_spec u "") as [->|Hne]; [solve [left; cbn; eauto]|].
    right. exists status, u, c, e. split; [reflexivity|]. split; [exact Hne|].
    unfold connectWebSocket.
    destruct (WebSocket_throws u) as [m|]; cbn.
    + split; [reflexivity|]. right. eauto.
    + split; [reflexivity|]. left. auto.
  - destruct body as [m | u c [e|]]; try solve [left; cbn; eauto].
    destruct (String.eqb e ""); solve [left; cbn; eauto].
Qed.

Lemma startCall_settled_frame r s :
  rendered_ws (startCall_settled' r s) = rendered_ws s /\
  listenStatus (view (startCall_settled' r s)) = listenStatus (view s) /\
  pending_fetches (startCall_settled' r s) = pending_fetches s /\
  pending_resumes (startCall_settled' r s) = pending_resumes s.
Proof.
  unfold startCall_settled.
  destruct r as [m | ok status body]; [auto|].
  destruct ok; cbn [negb].
  - destruct body as [m | [u|] c e]; auto.
    destruct (String.eqb u ""); [auto|].
    unfold connectWebSocket. destruct (WebSocket_throws u); auto.
  - destruct body as [m | u c [e|]]; auto.
    destruct (String.eqb e ""); auto.
Qed.

(** The two halves of [startCall] with nothing in between are the whole. *)
Lemma startCall_split r s :
  onfetch' r (startCall_begin s) = startCall' r s.
Proof.
  unfold onfetch, startCall_begin, startCall.
  cbn [set_pending_fetches pending_fetches].
  destruct s; reflexivity.
Qed.

End ConnectionFacts.

(** ** Facts about accepted frames *)

Lemma Subseq_Forall {A} (P : A -> Prop) (l1 l2 : list A) :
  Subseq l1 l2 -> Forall P l2 -> Forall P l1.
Proof.
  induction 1 as [|x l1 l2 _ IH|x l1 l2 _ IH]; intros H.
  - constructor.
  - inversion H; subst. auto.
  - inversion H; subst. constructor; auto.
Qed.

Lemma Int16Array_range : forall b pcm,
  Int16Array b = Some pcm -> Forall int16_range pcm.
Proof.
  fix IH 1. intros b pcm Hb.
  destruct b as [|lo [|hi rest]]; simpl in Hb.
  - injection Hb as <-. constructor.
  - discriminate.
  - destruct (Int16Array rest) as [t|] eqn:E; [|discriminate].
    injection Hb as <-. constructor.
    + apply int16_of_bytes_range.
    + apply (IH rest t E).
Qed.

Lemma Int16Array_length : forall b pcm,
  Int16Array b = Some pcm -> byteLength b = 2 * length pcm.
Proof.
  fix IH 1. intros b pcm Hb.
  destruct b as [|lo [|hi rest]]; simpl in Hb.
  - injection Hb as <-. reflexivity.
  - discriminate.
  - destruct (Int16Array rest) as [t|] eqn:E; [|discriminate].
    injection Hb as <-. unfold byteLength in *. simpl.
    rewrite (IH rest t E). lia.
Qed.

(** The chunk a frame contributes has half as many samples as the frame has
    bytes, at least 128 of them, all within [-1, 1]. *)
Lemma chunk_of_frame_well_formed frame c :
  chunk_of_frame frame = Some c ->
  2 * length c = byteLength frame /\ 128 <= length c /\
  Forall (fun y => (-1 <= y)%Q /\ (y <= 1)%Q) c.
Proof.
  unfold chunk_of_frame, decode.
  destruct (validateAudioData (Some frame)) eqn:Hv; [|discriminate].
  apply validate_true_iff in Hv. destruct Hv as [Hev Hlen].
  destruct (Int16Array frame) as [pcm|] eqn:Hpcm; [|discriminate].
  intros H. injection H as <-.
  pose proof (Int16Array_length frame pcm Hpcm) as Hl.
  unfold to_float32. rewrite length_map.
  split; [lia|]. split.
  - rewrite Hl in Hlen. rewrite Nat.mul_comm, Nat.div_mul in Hlen by lia. exact Hlen.
  - apply Forall_forall. intros y Hy. apply in_map_iff in Hy.
    destruct Hy as (x & <- & _). apply pcm_to_float_bounds.
Qed.

Lemma chunks_of_events_well_formed events :
  Forall (fun c => 128 <= length c /\
                   Forall (fun y => (-1 <= y)%Q /\ (y <= 1)%Q) c)
         (chunks_of_events events).
Proof.
  unfold chunks_of_events. induction events as [|e events IH]; simpl.
  - constructor.
  - apply Forall_app. split; [|exact IH].
    destruct e as [| | | | | |[d|raw] ts| | | | |]; try constructor.
    destruct (chunk_of_frame d) as [c|] eqn:E; constructor; [|constructor].
    destruct (chunk_of_frame_well_formed d c E) as (_ & H1 & H2). auto.
Qed.

(** ** The claims *)

Lemma Subseq_app {A} (a b c d : list A) :
  Subseq a b -> Subseq c d -> Subseq (a ++ c) (b ++ d).
Proof.
  intros H1 H2. induction H1; simpl; [exact H2 | |]; constructor; assumption.
Qed.

Lemma filter_all {A} (f : A -> bool) (l : list A) :
  Forall (fun x => f x = true) l -> filter f l = l.
Proof.
  induction 1 as [|x l Hx _ IH]; simpl; [reflexivity|].
  rewrite Hx, IH. reflexivity.
Qed.

Lemma chunks_of_events_cons e events :
  chunks_of_events (e :: events) =
  chunks_of_events [e] ++ chunks_of_events events.
Proof.
  unfold chunks_of_events. cbn [flat_map]. rewrite app_nil_r. reflexivity.
Qed.

Section Claims.

Variable webaudio_throws : AudioContext -> AudioQueueItem -> bool.
Variable JSON_parse : string -> option Json.
Variable WebSocket_throws : string -> option string.

Local Abbreviation step' := (step webaudio_throws JSON_parse WebSocket_throws).
Local Abbreviation run' := (run webaudio_throws JSON_parse WebSocket_throws).
Local Abbreviation onmessage' := (onmessage webaudio_throws JSON_parse).
Local Abbreviation startCall' := (startCall WebSocket_throws).
Local Abbreviation elapse' := (elapse WebSocket_throws).
Local Abbreviation drain_body' := (drain_body webaudio_throws).
Local Abbreviation processAudioQueue' := (processAudioQueue webaudio_throws).
Local Abbreviation playable' := (playable webaudio_throws).

(** C9.  Whenever the audio context is initialised, [processAudioQueue]
    returns with the playback queue empty, whatever the queue held (chunks
    that are skipped or whose scheduling throws included); and after every
    event of every run of the component from its mount the queue is empty, so
    it is non-empty only inside the message handler, between the push and the
    drain that follows it. *)
Theorem drain_leaves_queue_empty :
  (forall a,
      audioContextRef a <> None ->
      audioQueueRef (processAudioQueue' a) = []) /\
  (forall events,
      audioQueueRef (audio (run' events initial_state)) = []).
Proof.
  split.
  - intros a Hctx. destruct (audioContextRef a) as [ctx|] eqn:E; [|congruence].
    destruct (processAudioQueue_spec webaudio_throws a ctx E) as (chunks & _ & _ & H).
    rewrite H. reflexivity.
  - intros events. apply queue_empty_between_events. reflexivity.
Qed.

(** What the message handler does with a frame the validator accepts while
    a context exists: the push of lines 181-184, then the drain of line
    187. *)
Lemma onmessage_accepted d samples ts s :
  audioContextRef (audio s) <> None ->
  chunk_of_frame d = Some samples ->
  onmessage' (Binary d) ts s =
  with_audio (fun a => processAudioQueue'
                         (enqueue {| data := samples; timestamp := ts |} a)) s.
Proof.
  intros Hctx Hc.
  destruct (chunk_of_frame_well_formed d samples Hc) as (Hlen & H128 & _).
  unfold chunk_of_frame, decode in Hc.
  destruct (validateAudioData (Some d)) eqn:Hv; [|discriminate].
  destruct (Int16Array d) as [pcm|] eqn:Hpcm; [|discriminate].
  injection Hc as <-.
  unfold onmessage. destruct (audioContextRef (audio s)); [|congruence].
  unfold ArrayBuffer in *. rewrite Hv, Hpcm. cbn [negb].
  assert (Hl : length pcm = length (to_float32 pcm))
    by (unfold to_float32; now rewrite length_map).
  destruct (Nat.eqb_spec (byteLength d) 0); [lia|].
  destruct (Nat.eqb_spec (length pcm) 0); [lia|].
  destruct (Nat.eqb_spec (length (to_float32 pcm)) 0); [lia|]. reflexivity.
Qed.


(** C2, as amended.  One drain of at most 51 queued chunks, all playable,
    with the clock read once as [now] before the loop: the chunks are started
    in queue order, each at [max(now, cursor)] for the value of the cursor at
    that moment, that is the k-th at
    [max(now, NextPlayTime_0) + duration of the k chunks before it]; and
    after the drain
    [NextPlayTime = max(now, NextPlayTime_0) + sum of the durations], which is
    [now + sum of the durations] when the cursor was not ahead of the
    clock. *)
Theorem drain_schedules_back_to_back (ctx : AudioContext) (a : Audio) :
  audioContextRef a = Some ctx ->
  length (audioQueueRef a) <= 51 ->
  Forall (fun item => playable' ctx item = true) (audioQueueRef a) ->
  let now := currentTime ctx in
  let t0 := nextPlayTimeRef a in
  let chunks := map data (audioQueueRef a) in
  let r := processAudioQueue' a in
  started r = started a ++ fst (back_to_back ctx now t0 chunks) /\
  nextPlayTimeRef r = snd (back_to_back ctx now t0 chunks) /\
  map buffer (fst (back_to_back ctx now t0 chunks)) = chunks /\
  (forall k s,
      nth_error (fst (back_to_back ctx now t0 chunks)) k = Some s ->
      (startTime s == Qmax now t0 + total_duration ctx (firstn k chunks))%Q) /\
  (audioQueueRef a <> [] ->
   (nextPlayTimeRef r == Qmax now t0 + total_duration ctx chunks)%Q) /\
  (audioQueueRef a <> [] -> (t0 <= now)%Q ->
   (nextPlayTimeRef r == now + total_duration ctx chunks)%Q).
Proof.
  intros Hctx Hlen Hall. cbv zeta.
  destruct (processAudioQueue_spec webaudio_throws a ctx Hctx)
    as (chunks & _ & Hexact & Hrun).
  specialize (Hexact Hlen). rewrite (filter_all _ _ Hall) in Hexact. subst chunks.
  rewrite Hrun. cbn [started nextPlayTimeRef].
  assert (Hne : audioQueueRef a <> [] -> map data (audioQueueRef a) <> []).
  { destruct (audioQueueRef a); [congruence | discriminate]. }
  repeat split.
  - apply back_to_back_buffers.
  - apply back_to_back_nth.
  - intros H. apply back_to_back_final. auto.
  - intros H Hle. rewrite back_to_back_final by auto.
    rewrite (Q.max_l _ _ Hle). reflexivity.
Qed.

(** The sources started over a stretch of events that do not set the cursor
    extend the log in arrival order, and stay ordered after any ordered tail
    [new0] of the log that lies below the cursor. *)
Lemma run_extends_schedule events : forall s new0,
  Forall not_reset events ->
  audioQueueRef (audio s) = [] ->
  StronglySorted Qle (map startTime new0) ->
  Forall (fun x => (startTime x <= nextPlayTimeRef (audio s))%Q) new0 ->
  exists new,
    started (audio (run' events s)) = started (audio s) ++ new /\
    Subseq (map buffer new) (chunks_of_events events) /\
    StronglySorted Qle (map startTime (new0 ++ new)).
Proof.
  unfold run.
  induction events as [|e events IH]; intros s new0 Hno Hq Hs Hb.
  - exists []. simpl. rewrite !app_nil_r. repeat split; [constructor | exact Hs].
  - inversion Hno as [|? ? He Hrest]; subst.
    destruct (audio_step_schedule webaudio_throws JSON_parse WebSocket_throws
                e s He Hq) as (ctx & now & chunks & Hsub & Hst & Hnpt).
    pose proof (audio_step_queue webaudio_throws JSON_parse WebSocket_throws
                  e s Hq) as Hq'.
    set (b := fst (back_to_back ctx now (nextPlayTimeRef (audio s)) chunks)) in *.
    destruct (schedule_ordered_extend
                {| audioContextRef := None; audioQueueRef := [];
                   nextPlayTimeRef := nextPlayTimeRef (audio s);
                   started := new0 |}
                {| audioContextRef := None; audioQueueRef := [];
                   nextPlayTimeRef := nextPlayTimeRef (audio (step' e s));
                   started := new0 ++ b |}
                ctx now chunks) as [Hs' Hb'];
      [split; assumption | reflexivity | exact Hnpt |].
    cbn [started nextPlayTimeRef] in Hs', Hb'.
    destruct (IH (step' e s) (new0 ++ b) Hrest Hq' Hs' Hb') as (new & Ha & Hc & Hd).
    exists (b ++ new). cbn [fold_left]. rewrite Ha, Hst, <- app_assoc.
    split; [reflexivity|]. split.
    + rewrite map_app. unfold b. rewrite back_to_back_buffers.
      rewrite chunks_of_events_cons. apply Subseq_app; assumption.
    + rewrite app_assoc. exact Hd.
Qed.

End Claims.

Section ConnectionClaims.

Variable webaudio_throws : AudioContext -> AudioQueueItem -> bool.
Variable JSON_parse : string -> option Json.
Variable WebSocket_throws : string -> option string.

Local Abbreviation step' := (step webaudio_throws JSON_parse WebSocket_throws).
Local Abbreviation run' := (run webaudio_throws JSON_parse WebSocket_throws).
Local Abbreviation onmessage' := (onmessage webaudio_throws JSON_parse).
Local Abbreviation startCall' := (startCall WebSocket_throws).
Local Abbreviation elapse' := (elapse WebSocket_throws).

(** The pending reconnect of a close event, before and after its due
    time. *)
Lemma single_timer_elapse s id due ms :
  timers (net s) = [(id, due)] ->
  (clock (net s) + ms < due ->
   timers (net (elapse' ms s)) = [(id, due)] /\
   connects (net (elapse' ms s)) = connects (net s)) /\
  (due <= clock (net s) + ms ->
   timers (net (elapse' ms s)) = [] /\
   connects (net (elapse' ms s)) = connects (net s) ++ [wsUrlRef (net s)]).
Proof.
  intros Ht.
  pose proof (net_elapse WebSocket_throws ms s) as H. cbv zeta in H.
  destruct H as (_ & _ & _ & _ & _ & Htm & Hcn).
  rewrite Htm, Hcn, Ht. cbn [filter snd].
  split; intros Hlt.
  - destruct (Nat.leb_spec due (clock (net s) + ms)); [lia|].
    cbn. rewrite app_nil_r. split; reflexivity.
  - destruct (Nat.leb_spec due (clock (net s) + ms)); [|lia].
    cbn. split; reflexivity.
Qed.

Lemma no_timer_elapse s ms :
  timers (net s) = [] ->
  timers (net (elapse' ms s)) = [] /\
  connects (net (elapse' ms s)) = connects (net s).
Proof.
  intros Ht.
  pose proof (net_elapse WebSocket_throws ms s) as H. cbv zeta in H.
  destruct H as (_ & _ & _ & _ & _ & Htm & Hcn).
  rewrite Htm, Hcn, Ht. cbn. rewrite app_nil_r. split; reflexivity.
Qed.

(** The handlers of the reconnection taken by themselves.  A close event with
    a code other than 1000 and 1001, received while [wsUrlRef] is not empty
    and no other timer is pending, arms one timer due 2000 ms later.  No connection is attempted before the 2000 ms have
    passed; once they have, exactly one connection to the retained endpoint
    is attempted and none afterwards; and if [stopListening] runs before the
    2000 ms have passed, the timer is cleared and no connection is ever
    attempted. *)
Lemma reconnect_once_after_delay (s : State) (code : Z) :
  code <> 1000%Z -> code <> 1001%Z ->
  wsUrlRef (net s) <> "" ->
  timers (net s) = [] ->
  let s1 := onclose code s in
  let url := wsUrlRef (net s) in
  timers (net s1) = [(nextTimer (net s), clock (net s) + 2000)] /\
  reconnectTimeoutRef (net s1) = Some (nextTimer (net s)) /\
  (forall ms, ms < 2000 ->
      connects (net (elapse' ms s1)) = connects (net s)) /\
  (forall ms, 2000 <= ms ->
      connects (net (elapse' ms s1)) = connects (net s) ++ [url] /\
      forall ms',
        connects (net (elapse' ms' (elapse' ms s1))) = connects (net s) ++ [url]) /\
  (forall ms w ms', ms < 2000 ->
      let s2 := stopListening w (elapse' ms s1) in
      timers (net s2) = [] /\
      connects (net s2) = connects (net s) /\
      connects (net (elapse' ms' s2)) = connects (net s)).
Proof.
  intros H0 H1 Hu Ht. cbv zeta.
  destruct (onclose_abnormal code s H0 H1 Hu) as [Hnet _].
  assert (Htm : timers (net (onclose code s))
                = [(nextTimer (net s), clock (net s) + 2000)]).
  { rewrite Hnet. cbn. rewrite Ht. reflexivity. }
  assert (Hck : clock (net (onclose code s)) = clock (net s))
    by (rewrite Hnet; reflexivity).
  assert (Hcn : connects (net (onclose code s)) = connects (net s))
    by (rewrite Hnet; reflexivity).
  assert (Hurl : wsUrlRef (net (onclose code s)) = wsUrlRef (net s))
    by (rewrite Hnet; reflexivity).
  assert (Hrt : reconnectTimeoutRef (net (onclose code s))
                = Some (nextTimer (net s)))
    by (rewrite Hnet; reflexivity).
  split; [exact Htm|]. split; [exact Hrt|]. split; [|split].
  - intros ms Hms.
    destruct (single_timer_elapse _ _ _ ms Htm) as [Hbefore _].
    destruct Hbefore as [_ Hc]; [lia|]. rewrite Hc. exact Hcn.
  - intros ms Hms.
    destruct (single_timer_elapse _ _ _ ms Htm) as [_ Hafter].
    destruct Hafter as [Hte Hce]; [lia|].
    rewrite Hce, Hcn, Hurl. split; [reflexivity|].
    intros ms'. destruct (no_timer_elapse _ ms' Hte) as [_ Hc].
    rewrite Hc, Hce, Hcn, Hurl. reflexivity.
  - intros ms w ms' Hms.
    destruct (single_timer_elapse _ _ _ ms Htm) as [Hbefore _].
    destruct Hbefore as [Hte Hce]; [lia|].
    pose proof (net_elapse WebSocket_throws ms (onclose code s)) as He.
    cbv zeta in He. destruct He as (_ & _ & Hre & _).
    destruct (net_stopListening w (elapse' ms (onclose code s)))
      as (_ & _ & _ & Hsc & _ & Hst & _).
    assert (Hempty : timers (net (stopListening w (elapse' ms (onclose code s)))) = []).
    { rewrite Hst. unfold clearReconnect. rewrite Hre, Hrt. cbn.
      rewrite Hte. cbn. rewrite Nat.eqb_refl. reflexivity. }
    split; [exact Hempty|]. split.
    + rewrite Hsc, Hce. exact Hcn.
    + destruct (no_timer_elapse _ ms' Hempty) as [_ Hc].
      rewrite Hc, Hsc, Hce. exact Hcn.
Qed.

(** C6.  When the response is successful and its [listenUrl] is missing or
    empty, [startCall] ends with the call status
    ["Call failed: Listen URL not received"], and it neither constructs a
    socket nor touches any ref: the connection and audio sides and the [ws]
    state are unchanged. *)
Theorem start_without_listen_url_fails
        (s : State) (status : nat) (lu callId error : option string) :
  lu = None \/ lu = Some "" ->
  let s' := startCall' (Response true status (Body lu callId error)) s in
  callStatus (view s') = "Call failed: Listen URL not received" /\
  connects (net s') = connects (net s) /\
  net s' = net s /\ audio s' = audio s /\
  ws (view s') = ws (view s) /\ rendered_ws s' = rendered_ws s.
Proof.
  intros H. cbv zeta.
  rewrite (net_startCall_failed_url WebSocket_throws status lu callId error s H).
  repeat split.
Qed.

(** The text frame [{type: "call-ended"}] handled while a context exists: the
    handler runs the [stopListening] of the mount render.  The queue is
    flushed, the context released and the endpoint forgotten, but [ws.close]
    is not called and the [ws] state is kept; the status set to
    ["Call ended"] is overwritten with ["Idle"] in the same handler. *)
Lemma call_ended_keeps_socket raw message ts s :
  audioContextRef (audio s) <> None ->
  JSON_parse raw = Some message ->
  is_call_ended message = Some true ->
  let s' := onmessage' (Text raw) ts s in
  closeCalls (net s') = closeCalls (net s) /\
  ws (view s') = ws (view s) /\
  callStatus (view s') = "Idle" /\
  audioQueueRef (audio s') = [] /\
  wsUrlRef (net s') = "".
Proof.
  intros Hctx Hp Hce. cbv zeta. unfold onmessage.
  destruct (audioContextRef (audio s)); [|congruence].
  rewrite Hp, Hce. unfold stopListening_at_mount.
  destruct (net_stopListening None (setCallStatus "Call ended" s))
    as (Hu & _ & _ & _ & _ & _ & Hcc).
  destruct (view_stopListening None (setCallStatus "Call ended" s))
    as (Hcs & _ & _ & Hws & _).
  destruct (audio_stopListening None (setCallStatus "Call ended" s)) as (Hq & _).
  rewrite Hcc, Hws, Hcs, Hq, Hu, app_nil_r. repeat split.
Qed.

(** The same [stopListening] called from the End Call button, whose closure
    holds the socket: the socket is closed with code 1000. *)
Lemma button_stop_closes_socket socket s :
  rendered_ws s = Some socket ->
  closeCalls (net (step' ClickEnd s)) =
  closeCalls (net s) ++ [(socket, 1000%Z, "User stopped listening")].
Proof.
  intros H. cbn [step]. rewrite H.
  destruct (net_stopListening (Some socket) s) as (_ & _ & _ & _ & _ & _ & Hcc).
  exact Hcc.
Qed.

(** Committing a render in which [ws] changed runs the previous
    [stopListening], which forgets the endpoint: after the commit that
    follows a successful Start, no endpoint is retained any more. *)
Lemma commit_forgets_endpoint s :
  ws (view s) <> rendered_ws s ->
  wsUrlRef (net (commit s)) = "" /\ rendered_ws (commit s) = ws (view s).
Proof.
  intros Hne. unfold commit.
  destruct (ws (view s)) as [a|] eqn:Ea, (rendered_ws s) as [b|] eqn:Eb;
    try (destruct (Nat.eqb_spec a b); [congruence|]); try congruence;
    cbn [set_rendered_ws net rendered_ws];
    (split; [apply net_stopListening | reflexivity]).
Qed.

(** One event that belongs to no Start keeps the retained endpoint empty and
    arms no timer. *)
Lemma quiet_step e s :
  not_start e ->
  wsUrlRef (net s) = "" ->
  wsUrlRef (net (step' e s)) = "" /\
  nextTimer (net (step' e s)) = nextTimer (net s) /\
  incl (timers (net (step' e s))) (timers (net s)).
Proof.
  intros He Hu.
  assert (Hclr : forall s',
            net s' = net s \/ net s' = clearReconnect (net s) ->
            wsUrlRef (net s') = "" /\
            nextTimer (net s') = nextTimer (net s) /\
            incl (timers (net s')) (timers (net s))).
  { intros s' [H|H]; rewrite H; [auto using incl_refl|].
    destruct (quiet_clearReconnect (net s)) as (H1 & H2 & _ & _ & _ & _ & H3 & _).
    rewrite H1, H2. auto. }
  destruct e; cbn [step]; try contradiction.
  - destruct (rendered_ws s); [|auto using incl_refl].
    destruct (net_stopListening (Some n) s) as (H1 & H2 & _ & _ & _ & H3 & _).
    rewrite H1, H2, H3. repeat split.
    apply (quiet_clearReconnect (net s)).
  - unfold commit.
    destruct (ws (view s)) as [a|], (rendered_ws s) as [b|];
      try destruct (a =? b); auto using incl_refl; cbn [set_rendered_ws net];
      match goal with
      | |- context [stopListening ?w s] =>
          destruct (net_stopListening w s) as (H1 & H2 & _ & _ & _ & H3 & _)
      end;
      rewrite H1, H2, H3; repeat split;
      apply (quiet_clearReconnect (net s)).
  - apply Hclr. apply (onopen_frame i s).
  - apply Hclr. apply (onresume_frame ok s).
  - unfold onmessage.
    destruct (audioContextRef (audio s)); [|auto using incl_refl].
    destruct m as [d | raw].
    + destruct (negb (validateAudioData (Some d))); [auto using incl_refl|].
      destruct (byteLength d =? 0); [auto using incl_refl|].
      destruct (Int16Array d) as [pcm|]; [|auto using incl_refl].
      destruct (length pcm =? 0); [auto using incl_refl|].
      destruct (length (to_float32 pcm) =? 0); auto using incl_refl.
    + destruct (JSON_parse raw) as [j|]; [|auto using incl_refl].
      destruct (is_call_ended j) as [[|]|]; auto using incl_refl.
      unfold stopListening_at_mount.
      destruct (net_stopListening None (setCallStatus "Call ended" s))
        as (H1 & H2 & _ & _ & _ & H3 & _).
      rewrite H1, H2, H3. repeat split.
      apply (quiet_clearReconnect (net s)).
  - rewrite onclose_clean by auto. auto using incl_refl.
  - cbn. auto using incl_refl.
  - pose proof (net_elapse WebSocket_throws ms s) as H. cbv zeta in H.
    destruct H as (H1 & H2 & _ & _ & _ & H3 & _).
    rewrite H1, H2, H3. repeat split; auto.
    intros t Ht. apply filter_In in Ht. tauto.
  - unfold tick_audio. destruct (audioContextRef (audio s)); auto using incl_refl.
  - unfold audio_state. destruct (audioContextRef (audio s)); auto using incl_refl.
Qed.


End ConnectionClaims.

(** ** The claims on sample inputs *)

(** C7.  A successful Start, the commit of the render, the opening of the
    socket, then the text frame [{"type":"call-ended"}]: the component was
    listening on socket 0; after the frame the queue is empty, the audio
    context is released and the endpoint forgotten, but [ws.close] has not
    been called, [ws] still holds the socket, and the call status is
    ["Idle"], not ["Call ended"].  The End Call button, whose [stopListening]
    holds the socket, closes it with code 1000. *)
Theorem call_ended_leaves_socket_open :
  let s := step webaudio_ok sample_parse websocket_ok
                (SocketMessage (Text call_ended_text) 0) listening in
  (listenStatus (view listening) = "Listening..." /\
   ws (view listening) = Some 0 /\
   connects (net listening) = ["wss://stream.example/listen"] /\
   audioContextRef (audio listening) = Some (ctx16k 0)) /\
  (audioQueueRef (audio s) = [] /\
   audioContextRef (audio s) = None /\
   wsUrlRef (net s) = "") /\
  (closeCalls (net s) = [] /\
   ws (view s) = Some 0 /\
   callStatus (view s) = "Idle") /\
  closeCalls (net (step webaudio_ok sample_parse websocket_ok ClickEnd s))
  = [(0, 1000%Z, "User stopped listening")].
Proof. vm_compute. repeat split. Qed.

(** C5.  Start succeeds, the render commits, the socket opens and the
    component listens on it; then the socket closes with code 1006.  The
    cleanup of the effect of lines 291-295, run at the commit, has already
    emptied [wsUrlRef], so the guard of line 215 fails: no timer is armed, the
    status is ["Connection closed"] and no connection is attempted, however
    much time passes, although no stop was issued.  When the close comes
    before the commit, it finds the endpoint and arms the 2000 ms timer, and
    the commit then clears that timer: again no connection is attempted.
    Only when the commit is held back for the whole delay does an attempt
    fire, and then exactly one. *)
Theorem abnormal_close_never_reconnects :
  let go := run webaudio_ok sample_parse websocket_ok in
  let url := "wss://stream.example/listen" in
  let closed_late := go [SocketClose 1006] listening in
  let closed_early := go [SocketClose 1006] connected in
  (connects (net listening) = [url] /\
   ws (view listening) = Some 0 /\
   listenStatus (view listening) = "Listening..." /\
   closeCalls (net listening) = []) /\
  wsUrlRef (net listening) = "" /\
  (timers (net closed_late) = [] /\
   reconnectTimeoutRef (net closed_late) = None /\
   listenStatus (view closed_late) = "Connection closed" /\
   forall ms, connects (net (go [Elapse ms] closed_late)) = [url]) /\
  (wsUrlRef (net connected) = url /\
   timers (net closed_early) = [(1, 2000)] /\
   reconnectTimeoutRef (net closed_early) = Some 1 /\
   listenStatus (view closed_early) = "Reconnecting...") /\
  (timers (net (go [Commit] closed_early)) = [] /\
   forall ms, connects (net (go [Commit; Elapse ms] closed_early)) = [url]) /\
  connects (net (go [Elapse 2000; Commit] closed_early)) = [url; url].
Proof.
  cbv zeta.
  split; [vm_compute; repeat split|].
  split; [vm_compute; reflexivity|].
  split; [split; [|split; [|split]]; try (vm_compute; reflexivity);
          intros ms; vm_compute; reflexivity|].
  split; [vm_compute; repeat split|].
  split; [split; [vm_compute; reflexivity | intros ms; vm_compute; reflexivity]|].
  vm_compute. reflexivity.
Qed.

(** C8.  The socket opens and the audio context is created suspended, so
    [onopen] waits at the [resume()] of line 32 with the context already in
    the ref.  The frames A and B arrive meanwhile and are started at 0 and at
    8 ms.  Then [resume()] settles and line 35 sets the cursor to the clock
    of the context, behind the end of B; the frame C arrives when the clock
    reads 4 ms and is started at 4 ms.  The three chunks are started in the
    order A, B, C, but C is given a start time earlier than the start time
    of B, inside the playing time of A. *)
Theorem resume_moves_cursor_behind_schedule :
  let go := run webaudio_ok sample_parse websocket_ok in
  let frame b := SocketMessage (Binary (frame_tone b)) 0 in
  let opening :=
    go [ClickStart; FetchSettled origination_ok; Commit;
        SocketOpen (Created 16000 0 suspended)] initial_state in
  let s :=
    go [frame "001"%byte; frame "002"%byte;
        AudioState running; ResumeSettled true; AudioClock (4 # 1000);
        frame "003"%byte] opening in
  (audioContextRef (audio opening)
   = Some {| sampleRate := 16000; currentTime := 0; state := suspended |} /\
   pending_resumes opening = 1 /\
   started (audio opening) = []) /\
  map (fun x => Some (buffer x)) (started (audio s))
  = map chunk_of_frame
        [frame_tone "001"%byte; frame_tone "002"%byte; frame_tone "003"%byte] /\
  Forall2 Qeq (map startTime (started (audio s))) [0; 8 # 1000; 4 # 1000]%Q /\
  ~ StronglySorted Qle (map startTime (started (audio s))).
Proof.
  cbv zeta. split; [vm_compute; repeat split|].
  split; [vm_compute; reflexivity|].
  split.
  - vm_compute. repeat constructor.
  - intros H. vm_compute in H.
    inversion H as [|a l Hl Ha]; subst.
    inversion Hl as [|b l' Hl' Hb]; subst.
    inversion Hb as [|c l'' Hc _]; subst.
    apply Hc. reflexivity.
Qed.

(** C2 as stated fails, at 16 kHz with chunks of 128 samples (8 ms each).
    The second chunk arrives when the clock reads 1 ms and the first is still
    playing: it is started at 8 ms and the cursor ends at 16 ms, not at
    1 ms + 8 ms.  The third arrives after a gap, when the clock reads 1 s: the
    cursor ends at 1.008 s, not at the clock of the first drain plus 24 ms. *)
Lemma next_play_time_counterexample :
  let frame := SocketMessage (Binary frame_silence) 0 in
  let go := run webaudio_ok sample_parse websocket_ok in
  let d := duration (ctx16k 0) 128 in
  (* first chunk at clock 0; the second arrives 1 ms later, while the first
     is still playing: the cursor is ahead of the clock *)
  let s1 := go [frame; AudioClock (1 # 1000)] listening in
  let s2 := go [frame] s1 in
  (* the third arrives after a gap, when the clock reads 1 s *)
  let s3 := go [AudioClock 1; frame] s2 in
  (audioContextRef (audio s1) = Some (ctx16k (1 # 1000)) /\
   nextPlayTimeRef (audio s1) == 8 # 1000 /\
   map buffer (started (audio s3))
   = repeat (to_float32 (repeat 0%Z 128)) 3)%Q /\
  (* the drain of the second chunk alone *)
  (~ nextPlayTimeRef (audio s2) == (1 # 1000) + d /\
   nextPlayTimeRef (audio s2) == 16 # 1000)%Q /\
  (* the three drains together, counted from the clock at the first *)
  (~ nextPlayTimeRef (audio s3) == 0 + (d + d + d) /\
   nextPlayTimeRef (audio s3) == 1008 # 1000)%Q.
Proof.
  cbv zeta. repeat split; vm_compute; congruence.
Qed.

(** C9 on a queue holding a playable chunk, a one-sample chunk and another
    playable chunk. *)
Lemma drain_leaves_queue_empty_witness :
  let a := audio_with 0 0 [silence_item; {| data := [0%Q]; timestamp := 0 |};
                           silence_item] in
  audioContextRef a <> None /\
  audioQueueRef (processAudioQueue webaudio_ok a) = [].
Proof.
  cbv zeta. split; [discriminate|].
  apply (proj1 (drain_leaves_queue_empty webaudio_ok sample_parse websocket_ok)).
  discriminate.
Defined.


(** C2, as amended, on two chunks queued while the cursor is ahead of the
    clock. *)
Lemma drain_schedules_back_to_back_witness :
  let ctx := ctx16k (1 # 1000) in
  let a := audio_with (1 # 1000) (8 # 1000) [silence_item; silence_item] in
  let now := currentTime ctx in
  let t0 := nextPlayTimeRef a in
  let chunks := map data (audioQueueRef a) in
  let r := processAudioQueue webaudio_ok a in
  (audioContextRef a = Some ctx /\
   length (audioQueueRef a) <= 51 /\
   Forall (fun item => playable webaudio_ok ctx item = true) (audioQueueRef a)) /\
  started r = started a ++ fst (back_to_back ctx now t0 chunks) /\
  nextPlayTimeRef r = snd (back_to_back ctx now t0 chunks) /\
  map buffer (fst (back_to_back ctx now t0 chunks)) = chunks /\
  (forall k s,
      nth_error (fst (back_to_back ctx now t0 chunks)) k = Some s ->
      (startTime s == Qmax now t0 + total_duration ctx (firstn k chunks))%Q) /\
  (audioQueueRef a <> [] ->
   (nextPlayTimeRef r == Qmax now t0 + total_duration ctx chunks)%Q) /\
  (audioQueueRef a <> [] -> (t0 <= now)%Q ->
   (nextPlayTimeRef r == now + total_duration ctx chunks)%Q).
Proof.
  cbv zeta. split.
  - split; [reflexivity|]. split; [cbn; lia|]. repeat constructor.
  - apply (drain_schedules_back_to_back webaudio_ok).
    + reflexivity.
    + cbn; lia.
    + repeat constructor.
Defined.

(** A close with code 1006 right after a successful Start, before the render
    is committed. *)
Lemma reconnect_once_after_delay_witness :
  let s := connected in
  let code := 1006%Z in
  let elapse' := elapse websocket_ok in
  let s1 := onclose code s in
  let url := wsUrlRef (net s) in
  (code <> 1000%Z /\ code <> 1001%Z /\
   wsUrlRef (net s) <> "" /\ timers (net s) = []) /\
  timers (net s1) = [(nextTimer (net s), clock (net s) + 2000)] /\
  reconnectTimeoutRef (net s1) = Some (nextTimer (net s)) /\
  (forall ms, ms < 2000 ->
      connects (net (elapse' ms s1)) = connects (net s)) /\
  (forall ms, 2000 <= ms ->
      connects (net (elapse' ms s1)) = connects (net s) ++ [url] /\
      forall ms',
        connects (net (elapse' ms' (elapse' ms s1))) = connects (net s) ++ [url]) /\
  (forall ms w ms', ms < 2000 ->
      let s2 := stopListening w (elapse' ms s1) in
      timers (net s2) = [] /\
      connects (net s2) = connects (net s) /\
      connects (net (elapse' ms' s2)) = connects (net s)).
Proof.
  cbv zeta. split.
  - split; [discriminate|]. split; [discriminate|].
    split; [discriminate | reflexivity].
  - apply (reconnect_once_after_delay websocket_ok connected 1006%Z).
    + discriminate.
    + discriminate.
    + discriminate.
    + reflexivity.
Defined.

(** C6 on the response [{ listenUrl: "" }] at mount. *)
Lemma start_without_listen_url_fails_witness :
  let s := initial_state in
  let s' := startCall websocket_ok
              (Response true 200 (Body (Some "") None None)) s in
  (Some "" = None \/ Some "" = Some "") /\
  callStatus (view s') = "Call failed: Listen URL not received" /\
  connects (net s') = connects (net s) /\
  net s' = net s /\ audio s' = audio s /\
  ws (view s') = ws (view s) /\ rendered_ws s' = rendered_ws s.
Proof.
  cbv zeta. split; [right; reflexivity|].
  apply (start_without_listen_url_fails websocket_ok initial_state 200
           (Some "") None None).
  right; reflexivity.
Defined.


(** ** Further properties: decoding and the message handler *)

(** The clamp of line 171 never changes a value.  For every buffer that can
    be viewed as 16-bit samples, the conversion of the component yields,
    sample by sample, the plain quotient [x / 32768] that the first version
    of the component computes without clamping; every sample is at least -1
    and strictly below 1. *)
Theorem clamp_is_identity_on_pcm16 (b : ArrayBuffer) (pcm : list Z) :
  Int16Array b = Some pcm ->
  Forall2 Qeq (to_float32 pcm) (simple_to_float32 pcm) /\
  Forall (fun y => (-1 <= y)%Q /\ (y < 1)%Q) (simple_to_float32 pcm).
Proof.
  intros Hb. pose proof (Int16Array_range b pcm Hb) as Hr. clear Hb.
  induction Hr as [|x l Hx _ [IH1 IH2]]; simpl.
  - split; constructor.
  - split; constructor; auto.
    + apply pcm_to_float_exact. exact Hx.
    + unfold int16_range in Hx.
      unfold Qdiv, Qle, Qlt, Qmult, Qinv, inject_Z. simpl. lia.
Qed.

Section MessageProperties.

Variable webaudio_throws : AudioContext -> AudioQueueItem -> bool.
Variable JSON_parse : string -> option Json.
Variable WebSocket_throws : string -> option string.

Local Abbreviation step' := (step webaudio_throws JSON_parse WebSocket_throws).
Local Abbreviation run' := (run webaudio_throws JSON_parse WebSocket_throws).
Local Abbreviation onmessage' := (onmessage webaudio_throws JSON_parse).

(** What one event adds to the log of started sources, socket openings
    included: buffers among the chunks of the event's frame. *)
Lemma started_step e s :
  audioQueueRef (audio s) = [] ->
  exists new,
    started (audio (step' e s)) = started (audio s) ++ new /\
    Subseq (map buffer new) (chunks_of_events [e]).
Proof.
  intros Hq. destruct e as [|r| | |i|ok|m ts|code| |ms|t|st];
    try (match goal with
         | |- context [step _ _ _ ?e s] =>
             destruct (audio_step_schedule webaudio_throws JSON_parse
                         WebSocket_throws e s I Hq)
               as (ctx & now & chunks & Hsub & Hst & _)
         end;
         eexists; split; [exact Hst|];
         rewrite back_to_back_buffers; exact Hsub).
  - exists []. rewrite app_nil_r. split; [|constructor].
    cbn [step]. apply (audio_onopen i s).
  - exists []. rewrite app_nil_r. split; [|constructor].
    cbn [step]. apply (audio_onresume ok s).
Qed.

Lemma started_run events : forall s,
  audioQueueRef (audio s) = [] ->
  exists new,
    started (audio (run' events s)) = started (audio s) ++ new /\
    Subseq (map buffer new) (chunks_of_events events).
Proof.
  unfold run. induction events as [|e events IH]; intros s Hq.
  - exists []. simpl. rewrite app_nil_r. split; [reflexivity | constructor].
  - destruct (started_step e s Hq) as (new1 & Hst1 & Hsub1).
    destruct (IH (step' e s)) as (new2 & Hst2 & Hsub2).
    { apply audio_step_queue. exact Hq. }
    exists (new1 ++ new2). cbn [fold_left].
    rewrite Hst2, Hst1, <- app_assoc. split; [reflexivity|].
    rewrite map_app, chunks_of_events_cons. apply Subseq_app; assumption.
Qed.

(** Only what was received is played.  In every run of the component from
    its mount, the buffers of the sources started so far are, in the order
    in which they were started, chunks decoded from binary frames of the run
    that the validator accepted, in the order in which the frames arrived,
    each frame giving at most one source; this across socket openings,
    stops and changes of the audio context.  Hence every source plays a
    buffer of at least 128 samples, all of them within [-1, 1]. *)
Theorem played_chunks_well_formed (events : list Event) :
  let played := started (audio (run' events initial_state)) in
  Subseq (map buffer played) (chunks_of_events events) /\
  Forall (fun x => 128 <= length (buffer x) /\
                   Forall (fun y => (-1 <= y)%Q /\ (y <= 1)%Q) (buffer x))
         played.
Proof.
  cbv zeta.
  destruct (started_run events initial_state eq_refl) as (new & Hst & Hsub).
  cbn [initial_state audio started app] in Hst. rewrite Hst.
  split; [exact Hsub|].
  pose proof (Subseq_Forall _ _ _ Hsub (chunks_of_events_well_formed events)) as H.
  rewrite Forall_map in H. exact H.
Qed.

Lemma context_stopListening w s :
  audioContextRef (audio s) = None ->
  audioContextRef (audio (stopListening w s)) = None.
Proof.
  intros Hc. unfold stopListening. destruct w; cbn; rewrite Hc; cbn; exact Hc.
Qed.

(** No audio context exists before a socket has opened. *)
Lemma no_context_before_open events : forall s,
  Forall not_open events ->
  audioContextRef (audio s) = None ->
  audioContextRef (audio (run' events s)) = None.
Proof.
  unfold run. induction events as [|e events IH]; intros s Hno Hc; simpl; [exact Hc|].
  inversion Hno as [|? ? He Hrest]; subst. apply IH; [exact Hrest|].
  destruct e; cbn [step]; try contradiction.
  - destruct (rendered_ws s); exact Hc.
  - rewrite (audio_onfetch WebSocket_throws). exact Hc.
  - destruct (rendered_ws s); [|exact Hc].
    apply context_stopListening. exact Hc.
  - unfold commit.
    destruct (ws (view s)) as [a|], (rendered_ws s) as [b|];
      try destruct (a =? b); try exact Hc;
      cbn [set_rendered_ws audio]; apply context_stopListening; exact Hc.
  - unfold onresume, initAudioContext_resumed.
    destruct (pending_resumes s); [exact Hc|].
    destruct ok; cbn; rewrite ?Hc; cbn; rewrite ?Hc; reflexivity.
  - unfold onmessage. rewrite Hc. exact Hc.
  - rewrite audio_onclose. exact Hc.
  - exact Hc.
  - rewrite (audio_elapse WebSocket_throws). exact Hc.
  - unfold tick_audio. rewrite Hc. exact Hc.
  - unfold audio_state. rewrite Hc. exact Hc.
Qed.

(** Until a socket has opened, every message is dropped: the handler returns
    at line 143 and the state is left exactly as it was.  This includes the
    call-ended notification, which is then lost. *)
Theorem messages_before_open_are_dropped
        (events : list Event) (m : MessageData) (date_now : Z) :
  Forall not_open events ->
  let s := run' events initial_state in
  onmessage' m date_now s = s.
Proof.
  intros Hno. cbv zeta. unfold onmessage.
  rewrite (no_context_before_open events initial_state Hno eq_refl).
  reflexivity.
Qed.

(** Malformed input is absorbed: a binary frame the validator rejects, a
    text frame that is not JSON, and a JSON text whose [type] is not
    ["call-ended"] (or that is [null]) each leave the whole state exactly as
    it was. *)
Theorem malformed_messages_change_nothing (s : State) (date_now : Z) :
  (forall d, validateAudioData (Some d) = false ->
             onmessage' (Binary d) date_now s = s) /\
  (forall raw, JSON_parse raw = None ->
               onmessage' (Text raw) date_now s = s) /\
  (forall raw message,
      JSON_parse raw = Some message ->
      is_call_ended message <> Some true ->
      onmessage' (Text raw) date_now s = s).
Proof.
  unfold onmessage. repeat split.
  - intros d Hv. destruct (audioContextRef (audio s)); [|reflexivity].
    unfold ArrayBuffer in *. rewrite Hv. reflexivity.
  - intros raw Hp. destruct (audioContextRef (audio s)); [|reflexivity].
    rewrite Hp. reflexivity.
  - intros raw message Hp Hne. destruct (audioContextRef (audio s)); [|reflexivity].
    rewrite Hp. destruct (is_call_ended message) as [[|]|]; congruence.
Qed.

(** A frame the validator accepts, received with an empty queue: the chunk
    is started once, at [max(clock, cursor)], with the decoded samples as its
    buffer, and the cursor moves to the end of the chunk; nothing else
    changes.  So the chunk starts exactly at the cursor (no gap) when it
    arrives in time, and at the clock reading when it arrives late.  When a
    Web Audio call throws on the chunk, the chunk is dropped and the state is
    unchanged. *)
Theorem valid_frame_is_played_once
        (s : State) (ctx : AudioContext) (d : ArrayBuffer)
        (samples : list Q) (date_now : Z) :
  audioContextRef (audio s) = Some ctx ->
  audioQueueRef (audio s) = [] ->
  validateAudioData (Some d) = true ->
  decode d = Some samples ->
  let item := {| data := samples; timestamp := date_now |} in
  let playTime := Qmax (currentTime ctx) (nextPlayTimeRef (audio s)) in
  (webaudio_throws ctx item = false ->
   onmessage' (Binary d) date_now s =
   with_audio (fun a =>
     {| audioContextRef := Some ctx;
        audioQueueRef := [];
        nextPlayTimeRef := (playTime + duration ctx (length samples))%Q;
        started := started a ++ [{| startTime := playTime; buffer := samples |}]
     |}) s /\
   ((currentTime ctx <= nextPlayTimeRef (audio s))%Q ->
    (playTime == nextPlayTimeRef (audio s))%Q) /\
   ((nextPlayTimeRef (audio s) <= currentTime ctx)%Q ->
    (playTime == currentTime ctx)%Q)) /\
  (webaudio_throws ctx item = true -> onmessage' (Binary d) date_now s = s).
Proof.
  intros Hctx Hq Hv Hdec. cbv zeta.
  pose proof Hdec as Hdec'. unfold decode in Hdec'.
  destruct (Int16Array d) as [pcm|] eqn:Hpcm; [|discriminate].
  injection Hdec' as <-.
  assert (Hwf : 128 <= length (to_float32 pcm)).
  { apply (chunk_of_frame_well_formed d). unfold chunk_of_frame.
    unfold ArrayBuffer in *. rewrite Hv. exact Hdec. }
  assert (Hlen : length pcm = length (to_float32 pcm))
    by (unfold to_float32; now rewrite length_map).
  assert (Hb : (byteLength d =? 0) = false).
  { apply Nat.eqb_neq. rewrite (Int16Array_length d pcm Hpcm). lia. }
  assert (Hon : onmessage' (Binary d) date_now s =
                with_audio (fun a => processAudioQueue webaudio_throws
                  (enqueue {| data := to_float32 pcm; timestamp := date_now |} a)) s).
  { unfold onmessage. rewrite Hctx. unfold ArrayBuffer in *.
    rewrite Hv, Hpcm. cbn [negb]. rewrite Hb.
    destruct (Nat.eqb_spec (length pcm) 0); [lia|].
    destruct (Nat.eqb_spec (length (to_float32 pcm)) 0); [lia|]. reflexivity. }
  rewrite Hon. clear Hon.
  set (item := {| data := to_float32 pcm; timestamp := date_now |}).
  destruct (processAudioQueue_spec webaudio_throws (enqueue item (audio s)) ctx Hctx)
    as (chunks & _ & Hexact & Hrun).
  cbn [enqueue set_audioQueue audioQueueRef nextPlayTimeRef started] in Hexact, Hrun.
  rewrite Hq in Hexact. cbn [Js.push app length filter map] in Hexact.
  specialize (Hexact ltac:(lia)).
  assert (Hplay : playable webaudio_throws ctx item = negb (webaudio_throws ctx item)).
  { unfold playable. cbn [item data].
    destruct (Nat.eqb_spec (length (to_float32 pcm)) 0); [lia|].
    destruct (Nat.ltb_spec (length (to_float32 pcm)) 128); [lia|]. reflexivity. }
  rewrite Hplay in Hexact.
  split.
  - intros Hok. rewrite Hok in Hexact. cbn [negb map data item] in Hexact.
    subst chunks. cbn [back_to_back fst snd] in Hrun.
    split; [|split].
    + unfold with_audio. rewrite Hrun. reflexivity.
    + intros H. apply Q.max_r. exact H.
    + intros H. apply Q.max_l. exact H.
  - intros Hth. rewrite Hth in Hexact. cbn [negb map] in Hexact.
    subst chunks. cbn [back_to_back fst snd] in Hrun.
    unfold with_audio. rewrite Hrun, app_nil_r.
    destruct s as [v a n r pf pr]. destruct a as [c q t l]. cbn in *. subst.
    reflexivity.
Qed.

End MessageProperties.

(** ** Further properties: the scheduler *)


(** A back-to-back schedule never overlaps, ends at the final cursor, and
    from the second source on it has no gap either. *)
Lemma back_to_back_spaced ctx now : forall chunks t,
  spaced (sampleRate ctx) (fst (back_to_back ctx now t chunks)) /\
  Forall (fun x => (startTime x + duration ctx (length (buffer x))
                    <= snd (back_to_back ctx now t chunks))%Q)
         (fst (back_to_back ctx now t chunks)).
Proof.
  induction chunks as [|c r IH]; intros t; simpl; [split; [exact I | constructor]|].
  pose proof (back_to_back_bounds ctx now r
                (Qmax now t + duration ctx (length c))%Q) as [Hle Hall].
  specialize (IH (Qmax now t + duration ctx (length c))%Q).
  destruct (back_to_back ctx now _ r) as [l t'] eqn:E. simpl in *.
  destruct IH as [Hsp Hend].
  pose proof (duration_nonneg ctx (length c)) as Hd.
  split; [split|].
  - destruct l as [|y l]; [exact I|].
    inversion Hall as [|? ? [Hy _] _]; subst.
    pose proof (Q.le_max_r now (Qmax now t + duration ctx (length c))%Q).
    change (Qmax now t + duration ctx (length c) <= startTime y)%Q. lra.
  - exact Hsp.
  - constructor; [simpl; exact Hle | exact Hend].
Qed.

Lemma back_to_back_gapless ctx now : forall chunks t k x y,
  nth_error (fst (back_to_back ctx now t chunks)) k = Some x ->
  nth_error (fst (back_to_back ctx now t chunks)) (S k) = Some y ->
  (startTime y == startTime x + duration ctx (length (buffer x)))%Q.
Proof.
  induction chunks as [|c r IH]; intros t k x y Hx Hy; simpl in Hx, Hy.
  - destruct k; discriminate.
  - pose proof (IH (Qmax now t + duration ctx (length c))%Q) as IH'.
    pose proof (back_to_back_nth ctx now r
                  (Qmax now t + duration ctx (length c))%Q 0 y) as H0.
    destruct (back_to_back ctx now _ r) as [l t'] eqn:E. simpl in *.
    destruct k as [|k]; simpl in *.
    + injection Hx as <-. simpl.
      rewrite (H0 Hy). simpl.
      pose proof (duration_nonneg ctx (length c)).
      pose proof (Q.le_max_l now t).
      rewrite Q.max_r by lra. lra.
    + apply (IH' k x y Hx Hy).
Qed.

Section SchedulerProperties.

Variable webaudio_throws : AudioContext -> AudioQueueItem -> bool.
Variable JSON_parse : string -> option Json.
Variable WebSocket_throws : string -> option string.

Local Abbreviation step' := (step webaudio_throws JSON_parse WebSocket_throws).
Local Abbreviation run' := (run webaudio_throws JSON_parse WebSocket_throws).
Local Abbreviation onmessage' := (onmessage webaudio_throws JSON_parse).
Local Abbreviation processAudioQueue' := (processAudioQueue webaudio_throws).
Local Abbreviation playable' := (playable webaudio_throws).

(** Whatever the queue holds, a drain never schedules a source in the past:
    every source it starts begins at or after the clock reading taken before
    the loop and at or after the cursor it found, and ends at or before the
    cursor it leaves; and the cursor never moves backwards. *)
Theorem drain_never_schedules_in_the_past (a : Audio) (ctx : AudioContext) :
  audioContextRef a = Some ctx ->
  let r := processAudioQueue' a in
  (nextPlayTimeRef a <= nextPlayTimeRef r)%Q /\
  exists new,
    started r = started a ++ new /\
    Forall (fun x =>
              (currentTime ctx <= startTime x)%Q /\
              (nextPlayTimeRef a <= startTime x)%Q /\
              (startTime x + duration ctx (length (buffer x))
               <= nextPlayTimeRef r)%Q) new.
Proof.
  intros Hctx. cbv zeta.
  destruct (processAudioQueue_spec webaudio_throws a ctx Hctx)
    as (chunks & _ & _ & Hrun).
  rewrite Hrun. cbn [nextPlayTimeRef started].
  pose proof (back_to_back_bounds ctx (currentTime ctx) chunks (nextPlayTimeRef a))
    as [Hle Hall].
  pose proof (back_to_back_spaced ctx (currentTime ctx) chunks (nextPlayTimeRef a))
    as [_ Hend].
  split; [exact Hle|]. eexists. split; [reflexivity|].
  rewrite Forall_forall in *. intros x Hx.
  destruct (Hall x Hx) as [H1 _]. specialize (Hend x Hx).
  pose proof (Q.le_max_l (currentTime ctx) (nextPlayTimeRef a)).
  pose proof (Q.le_max_r (currentTime ctx) (nextPlayTimeRef a)).
  repeat split; lra.
Qed.

(** Inside one drain playback is gapless: whatever the queue holds and
    however late the drain runs, each source started after the first begins
    exactly when the one before it ends. *)
Theorem drain_is_gapless (a : Audio) (ctx : AudioContext) :
  audioContextRef a = Some ctx ->
  exists new,
    started (processAudioQueue' a) = started a ++ new /\
    spaced (sampleRate ctx) new /\
    forall k x y,
      nth_error new k = Some x -> nth_error new (S k) = Some y ->
      (startTime y == startTime x + duration ctx (length (buffer x)))%Q.
Proof.
  intros Hctx.
  destruct (processAudioQueue_spec webaudio_throws a ctx Hctx)
    as (chunks & _ & _ & Hrun).
  rewrite Hrun. cbn [started]. eexists. split; [reflexivity|]. split.
  - apply back_to_back_spaced.
  - apply back_to_back_gapless.
Qed.

(** A drain of at most 51 chunks starts exactly the playable ones, in queue
    order.  A chunk that is empty, shorter than 128 samples, or on which a
    Web Audio call throws takes no time on the schedule: the cursor ends
    where it would have ended had the chunk not been queued; if no chunk is
    playable, the log and the cursor are untouched. *)
Theorem drain_skips_unplayable_chunks (a : Audio) (ctx : AudioContext) :
  audioContextRef a = Some ctx ->
  length (audioQueueRef a) <= 51 ->
  let kept := filter (playable' ctx) (audioQueueRef a) in
  processAudioQueue' a =
  processAudioQueue' (set_audioQueue kept a) /\
  map buffer (skipn (length (started a)) (started (processAudioQueue' a)))
  = map data kept /\
  (kept = [] ->
   started (processAudioQueue' a) = started a /\
   nextPlayTimeRef (processAudioQueue' a) = nextPlayTimeRef a).
Proof.
  intros Hctx Hlen. cbv zeta.
  destruct (processAudioQueue_spec webaudio_throws a ctx Hctx)
    as (chunks & _ & Hexact & Hrun).
  specialize (Hexact Hlen). subst chunks.
  destruct (processAudioQueue_spec webaudio_throws
              (set_audioQueue (filter (playable' ctx) (audioQueueRef a)) a) ctx Hctx)
    as (chunks' & _ & Hexact' & Hrun').
  cbn [set_audioQueue audioQueueRef nextPlayTimeRef started] in Hexact', Hrun'.
  assert (Hl : length (filter (playable' ctx) (audioQueueRef a)) <= 51).
  { pose proof (filter_length_le (playable' ctx) (audioQueueRef a)). lia. }
  specialize (Hexact' Hl).
  assert (Hff : filter (playable' ctx) (filter (playable' ctx) (audioQueueRef a))
                = filter (playable' ctx) (audioQueueRef a)).
  { apply filter_all. apply Forall_forall. intros x Hx.
    apply filter_In in Hx. tauto. }
  rewrite Hff in Hexact'. subst chunks'.
  split; [rewrite Hrun, Hrun'; reflexivity|]. rewrite Hrun. cbn [started nextPlayTimeRef].
  split.
  - rewrite skipn_app, skipn_all, Nat.sub_diag. simpl.
    apply back_to_back_buffers.
  - intros ->. simpl. rewrite app_nil_r. split; reflexivity.
Qed.

(** Overflow drops the middle of the queue.  When more than 51 playable
    chunks are queued, the drain starts the oldest chunk, evicts all but the
    last 25 of the others, and starts those 25: 26 chunks play, back to
    back, and the chunks in between are never played. *)
Theorem overflow_drops_the_middle
        (a : Audio) (ctx : AudioContext)
        (item : AudioQueueItem) (rest : list AudioQueueItem) :
  audioContextRef a = Some ctx ->
  audioQueueRef a = item :: rest ->
  50 < length rest ->
  Forall (fun x => playable' ctx x = true) (item :: rest) ->
  let r := processAudioQueue' a in
  let played := data item :: map data (Js.slice_last 25 rest) in
  audioQueueRef r = [] /\
  length played = 26 /\
  started r = started a ++
              fst (back_to_back ctx (currentTime ctx) (nextPlayTimeRef a) played) /\
  nextPlayTimeRef r
  = snd (back_to_back ctx (currentTime ctx) (nextPlayTimeRef a) played).
Proof.
  intros Hctx Hq Hlen Hall. cbv zeta.
  inversion Hall as [|? ? Hp Hrest]; subst.
  unfold processAudioQueue. rewrite Hctx, Hq. cbn [length Nat.eqb].
  rewrite (drain_cons webaudio_throws _ _ a item rest Hq).
  rewrite drain_body_play by exact Hp.
  cbn [set_audioQueue audioQueueRef audioContextRef nextPlayTimeRef started].
  destruct (Nat.ltb_spec 50 (length rest)) as [_|]; [|lia].
  match goal with
  | |- context [drain _ _ _ ?a1] =>
      destruct (drain_spec webaudio_throws ctx (currentTime ctx) a1)
        as (chunks & _ & Hexact & Hrun)
  end.
  cbn [audioQueueRef audioContextRef nextPlayTimeRef started] in Hexact, Hrun.
  assert (H25 : length (Js.slice_last 25 rest) = 25)
    by (rewrite slice_last_length; lia).
  rewrite filter_all in Hexact.
  2:{ apply Forall_forall. intros x Hx. rewrite Forall_forall in Hrest.
      apply Hrest. destruct (slice_last_suffix 25 rest) as (pre & E & _).
      rewrite E. apply in_or_app. right. exact Hx. }
  specialize (Hexact ltac:(lia)). subst chunks. rewrite Hrun.
  cbn [audioQueueRef started nextPlayTimeRef back_to_back].
  destruct (back_to_back ctx (currentTime ctx) _ (map data (Js.slice_last 25 rest)))
    as [l t'].
  cbn [fst snd]. rewrite <- app_assoc. cbn [app length].
  rewrite length_map, H25. repeat split.
Qed.

End SchedulerProperties.

(** ** Further properties: the audio context over a run *)


Section ContextProperties.

Variable webaudio_throws : AudioContext -> AudioQueueItem -> bool.
Variable JSON_parse : string -> option Json.
Variable WebSocket_throws : string -> option string.

Local Abbreviation step' := (step webaudio_throws JSON_parse WebSocket_throws).
Local Abbreviation run' := (run webaudio_throws JSON_parse WebSocket_throws).
Local Abbreviation onmessage' := (onmessage webaudio_throws JSON_parse).
Local Abbreviation processAudioQueue' := (processAudioQueue webaudio_throws).

Lemma context_stopListening_cases w s :
  audioContextRef (audio (stopListening w s)) = None \/
  audioContextRef (audio (stopListening w s)) = audioContextRef (audio s).
Proof.
  unfold stopListening. destruct w; cbn;
    destruct (audioContextRef (audio s)) as [c|] eqn:E; cbn;
    try destruct (state c); cbn; rewrite ?E; auto.
Qed.

Lemma context_processAudioQueue a :
  audioContextRef (processAudioQueue' a) = audioContextRef a.
Proof.
  destruct (audioContextRef a) as [ctx|] eqn:E.
  - destruct (processAudioQueue_spec webaudio_throws a ctx E) as (? & _ & _ & H).
    rewrite H. reflexivity.
  - unfold processAudioQueue. rewrite E. exact E.
Qed.

Lemma context_onmessage m ts s :
  audioContextRef (audio (onmessage' m ts s)) = None \/
  audioContextRef (audio (onmessage' m ts s)) = audioContextRef (audio s).
Proof.
  unfold onmessage.
  destruct (audioContextRef (audio s)) as [ctx|] eqn:Hctx; [|auto].
  destruct m as [d | raw].
  - destruct (negb (validateAudioData (Some d))); [auto|].
    destruct (byteLength d =? 0); [auto|].
    destruct (Int16Array d) as [pcm|]; [|auto].
    destruct (length pcm =? 0); [auto|].
    destruct (length (to_float32 pcm) =? 0); [auto|].
    right. cbn [with_audio audio]. rewrite context_processAudioQueue.
    cbn. exact Hctx.
  - destruct (JSON_parse raw) as [j|]; [|auto].
    destruct (is_call_ended j) as [[|]|]; auto.
    unfold stopListening_at_mount.
    destruct (context_stopListening_cases None (setCallStatus "Call ended" s))
      as [H|H]; [left; exact H | right; rewrite H; exact Hctx].
Qed.

Lemma context_onresume ok s :
  audioContextRef (audio (onresume ok s)) = audioContextRef (audio s).
Proof.
  unfold onresume, initAudioContext_resumed.
  destruct (pending_resumes s); [reflexivity|].
  destruct ok; cbn; [|reflexivity].
  destruct (audioContextRef (audio s)) eqn:E; cbn; rewrite ?E; reflexivity.
Qed.

(** An event other than a socket opening gives the component no new
    context: the context of the next state, if there is one, is the context
    of the state, up to its clock reading and its state. *)
Lemma context_step e s c' :
  not_open e ->
  audioContextRef (audio (step' e s)) = Some c' ->
  exists c, audioContextRef (audio s) = Some c /\ sampleRate c' = sampleRate c.
Proof.
  intros He.
  assert (Hsame : audioContextRef (audio (step' e s)) = None \/
                  audioContextRef (audio (step' e s)) = audioContextRef (audio s) ->
                  audioContextRef (audio (step' e s)) = Some c' ->
                  exists c, audioContextRef (audio s) = Some c /\
                            sampleRate c' = sampleRate c).
  { intros [H|H] H'; rewrite H in H'; [discriminate|]. eauto. }
  destruct e as [|r| | |i|ok|m ts|code| |ms|t|st]; cbn [step] in *;
    try contradiction.
  - apply Hsame. right. destruct (rendered_ws s); reflexivity.
  - apply Hsame. right. rewrite (audio_onfetch WebSocket_throws). reflexivity.
  - apply Hsame. destruct (rendered_ws s); [|auto].
    apply context_stopListening_cases.
  - apply Hsame. unfold commit.
    destruct (ws (view s)) as [a|], (rendered_ws s) as [b|];
      try destruct (a =? b); auto; cbn [set_rendered_ws audio];
      apply context_stopListening_cases.
  - apply Hsame. right. apply context_onresume.
  - apply Hsame. apply context_onmessage.
  - apply Hsame. right. rewrite audio_onclose. reflexivity.
  - apply Hsame. right. reflexivity.
  - apply Hsame. right. rewrite (audio_elapse WebSocket_throws). reflexivity.
  - unfold tick_audio. destruct (audioContextRef (audio s)) as [c0|] eqn:E.
    + cbn. intros H. injection H as <-. eauto.
    + rewrite E. discriminate.
  - unfold audio_state. destruct (audioContextRef (audio s)) as [c0|] eqn:E.
    + cbn. intros H. injection H as <-. eauto.
    + rewrite E. discriminate.
Qed.

Lemma context_run events : forall s c',
  Forall not_open events ->
  audioContextRef (audio (run' events s)) = Some c' ->
  exists c, audioContextRef (audio s) = Some c /\ sampleRate c' = sampleRate c.
Proof.
  unfold run. induction events as [|e events IH]; intros s c' Hno Hc; simpl in Hc.
  - eauto.
  - inversion Hno as [|? ? He Hrest]; subst.
    destruct (IH _ _ Hrest Hc) as (c1 & Hc1 & Hr1).
    destruct (context_step e s c1 He Hc1) as (c & Hc0 & Hr).
    exists c. split; [exact Hc0 | congruence].
Qed.


(** The audio context across socket openings.  When a socket opens while the
    context in the ref is running (a reconnection), the audio side is kept
    exactly as it is and the handler does not wait.  Otherwise the context
    the browser creates replaces the old one, with the rate the browser gave
    it.  Created running or closed, it has its clock copied to the cursor at
    once and the handler completes.  Created suspended, it makes the handler
    wait: the cursor, [isPlaying] and the pending reconnect are left as they
    are.  When [resume()] settles, the cursor is set to the clock of the
    context the ref holds at that moment; if [resume()] rejected or the ref
    has been emptied meanwhile the status becomes ["Audio Error"] and the
    cursor stays; in every case [isPlaying] is set and the pending reconnect
    cleared.  If nothing happens while the handler waits, the two halves
    leave the component as an opening with a context created running does,
    up to the state of the context.  Over a stretch of events without a
    socket opening no context appears and the rate of the context does not
    change. *)
Theorem context_survives_reopen :
  (forall s c i,
      audioContextRef (audio s) = Some c -> state c = running ->
      audio (onopen i s) = audio s /\
      pending_resumes (onopen i s) = pending_resumes s) /\
  (forall s rate t st,
      (forall c, audioContextRef (audio s) = Some c -> state c <> running) ->
      let s1 := onopen (Created rate t st) s in
      audioContextRef (audio s1)
      = Some {| sampleRate := rate; currentTime := t; state := st |} /\
      started (audio s1) = started (audio s) /\
      (st <> suspended ->
       nextPlayTimeRef (audio s1) = t /\
       pending_resumes s1 = pending_resumes s /\
       isPlaying (view s1) = true /\
       reconnectTimeoutRef (net s1) = None) /\
      (st = suspended ->
       nextPlayTimeRef (audio s1) = nextPlayTimeRef (audio s) /\
       pending_resumes s1 = S (pending_resumes s) /\
       isPlaying (view s1) = isPlaying (view s) /\
       net s1 = net s)) /\
  (forall s k ok,
      pending_resumes s = S k ->
      let s2 := onresume ok s in
      pending_resumes s2 = k /\
      isPlaying (view s2) = true /\
      reconnectTimeoutRef (net s2) = None /\
      audioContextRef (audio s2) = audioContextRef (audio s) /\
      started (audio s2) = started (audio s) /\
      (forall c, ok = true -> audioContextRef (audio s) = Some c ->
         nextPlayTimeRef (audio s2) = currentTime c /\
         listenStatus (view s2) = listenStatus (view s)) /\
      (ok = false \/ audioContextRef (audio s) = None ->
         nextPlayTimeRef (audio s2) = nextPlayTimeRef (audio s) /\
         listenStatus (view s2) = "Audio Error")) /\
  (forall s rate t,
      (forall c, audioContextRef (audio s) = Some c -> state c <> running) ->
      let waited := onresume true (onopen (Created rate t suspended) s) in
      let direct := onopen (Created rate t running) s in
      view waited = view direct /\ net waited = net direct /\
      pending_resumes waited = pending_resumes direct /\
      audio waited
      = set_audioContext
          (Some {| sampleRate := rate; currentTime := t; state := suspended |})
          (audio direct)) /\
  (forall events s c',
      Forall not_open events ->
      audioContextRef (audio (run' events s)) = Some c' ->
      exists c, audioContextRef (audio s) = Some c /\
                sampleRate c' = sampleRate c).
Proof.
  split; [|split; [|split; [|split]]].
  - intros s c i Hc Hrun. unfold onopen, initAudioContext.
    cbn [setListenStatus with_view audio].
    rewrite Hc, Hrun. cbn. auto.
  - intros s rate t st Hnr. cbv zeta.
    assert (Hcl : reconnectTimeoutRef (clearReconnect (net s)) = None)
      by apply quiet_clearReconnect.
    unfold onopen, initAudioContext. cbn [setListenStatus with_view audio].
    destruct (audioContextRef (audio s)) as [c|] eqn:E.
    + specialize (Hnr c eq_refl).
      destruct (state c); [congruence| |]; destruct st; cbn;
        repeat split; intros; try congruence; try exact Hcl.
    + destruct st; cbn; repeat split; intros; try congruence; try exact Hcl.
  - intros s k ok Hp. cbv zeta.
    assert (Hcl : reconnectTimeoutRef (clearReconnect (net s)) = None)
      by apply quiet_clearReconnect.
    unfold onresume, initAudioContext_resumed. rewrite Hp.
    destruct ok; cbn.
    + destruct (audioContextRef (audio s)) as [c|] eqn:E; cbn; rewrite ?E;
        repeat split; intros; try exact Hcl; try congruence;
        match goal with
        | H : _ \/ _ |- _ => destruct H; congruence
        end.
    + repeat split; intros; try exact Hcl; congruence.
  - intros s rate t Hnr. cbv zeta.
    unfold onresume, onopen, initAudioContext, initAudioContext_resumed.
    cbn [setListenStatus with_view audio].
    destruct (audioContextRef (audio s)) as [c|] eqn:E.
    + specialize (Hnr c eq_refl).
      destruct (state c); [congruence| |]; cbn; repeat split.
    + cbn. repeat split.
  - intros events s c'. apply context_run.
Qed.





(** One binary frame handled while a context exists and no Web Audio call
    throws: the chunk of the frame, if the validator accepts the frame, is
    started, and nothing else is. *)
Lemma frame_step_exact d ts s :
  (forall c i, webaudio_throws c i = false) ->
  audioContextRef (audio s) <> None ->
  audioQueueRef (audio s) = [] ->
  exists new,
    started (audio (onmessage' (Binary d) ts s)) = started (audio s) ++ new /\
    map buffer new = chunks_of_events [SocketMessage (Binary d) ts].
Proof.
  intros Hok Hctx Hq.
  unfold chunks_of_events. cbn [flat_map]. rewrite app_nil_r.
  destruct (chunk_of_frame d) as [samples|] eqn:Hc.
  - rewrite (onmessage_accepted webaudio_throws JSON_parse d samples ts s Hctx Hc).
    destruct (chunk_of_frame_well_formed d samples Hc) as (_ & H128 & _).
    destruct (audioContextRef (audio s)) as [ctx|] eqn:E; [|congruence].
    set (item := {| data := samples; timestamp := ts |}).
    cbn [with_audio audio].
    destruct (processAudioQueue_spec webaudio_throws (enqueue item (audio s)) ctx E)
      as (chunks & _ & Hexact & Hrun).
    cbn [enqueue set_audioQueue audioQueueRef nextPlayTimeRef started] in Hexact, Hrun.
    rewrite Hq in Hexact. cbn [Js.push app length filter map] in Hexact.
    specialize (Hexact ltac:(lia)).
    assert (Hplay : playable webaudio_throws ctx item = true).
    { unfold playable. cbn [item data]. rewrite Hok.
      destruct (Nat.eqb_spec (length samples) 0); [lia|].
      destruct (Nat.ltb_spec (length samples) 128); [lia|]. reflexivity. }
    rewrite Hplay in Hexact. cbn [map data item] in Hexact. subst chunks.
    rewrite Hrun. cbn [started back_to_back fst].
    eexists. split; reflexivity.
  - exists []. rewrite app_nil_r. split; [|reflexivity].
    unfold onmessage. unfold chunk_of_frame, decode in Hc.
    destruct (audioContextRef (audio s)); [|reflexivity].
    unfold ArrayBuffer in *.
    destruct (validateAudioData (Some d)); cbn [negb]; [|reflexivity].
    destruct (byteLength d =? 0); [reflexivity|].
    destruct (Int16Array d); [discriminate | reflexivity].
Qed.

Lemma streaming_not_reset e : streaming e -> not_reset e.
Proof. destruct e as [| | | | | |[|]| | | | |]; simpl; auto. Qed.

Lemma streaming_run_exact events : forall s,
  (forall c i, webaudio_throws c i = false) ->
  Forall streaming events ->
  audioContextRef (audio s) <> None ->
  audioQueueRef (audio s) = [] ->
  exists new,
    started (audio (run' events s)) = started (audio s) ++ new /\
    map buffer new = chunks_of_events events.
Proof.
  unfold run. induction events as [|e events IH]; intros s Hok Hev Hctx Hq.
  - exists []. simpl. rewrite app_nil_r. auto.
  - inversion Hev as [|? ? He Hrest]; subst.
    assert (Hstep : exists new1,
              started (audio (step' e s)) = started (audio s) ++ new1 /\
              map buffer new1 = chunks_of_events [e] /\
              audioContextRef (audio (step' e s)) <> None).
    { destruct e as [| | | | | |[d|raw] ts| | | |t|st]; try contradiction;
        cbn [step].
      - destruct (frame_step_exact d ts s Hok Hctx Hq) as (new1 & H1 & H2).
        exists new1. split; [exact H1|]. split; [exact H2|].
        destruct (chunk_of_frame d) as [samples|] eqn:Hc.
        + rewrite (onmessage_accepted webaudio_throws JSON_parse d samples ts s
                     Hctx Hc).
          cbn [with_audio audio]. rewrite context_processAudioQueue. exact Hctx.
        + unfold onmessage. unfold chunk_of_frame, decode in Hc.
          destruct (audioContextRef (audio s)) eqn:E; [|congruence].
          unfold ArrayBuffer in *.
          destruct (validateAudioData (Some d)); cbn [negb]; [|congruence].
          destruct (byteLength d =? 0); [congruence|].
          destruct (Int16Array d); [discriminate | congruence].
      - exists []. rewrite app_nil_r. unfold tick_audio.
        destruct (audioContextRef (audio s)); [|congruence].
        cbn. repeat split. discriminate.
      - exists []. rewrite app_nil_r. unfold audio_state.
        destruct (audioContextRef (audio s)); [|congruence].
        cbn. repeat split. discriminate. }
    destruct Hstep as (new1 & Hst1 & Hb1 & Hctx1).
    destruct (IH (step' e s) Hok Hrest Hctx1) as (new2 & Hst2 & Hb2).
    { apply audio_step_queue. exact Hq. }
    exists (new1 ++ new2). cbn [fold_left].
    rewrite Hst2, Hst1, <- app_assoc. split; [reflexivity|].
    rewrite map_app, chunks_of_events_cons, Hb1, Hb2. reflexivity.
Qed.

(** Frames are played in the order of their arrival.  In every run of the
    component from its mount, over any stretch of events in which no socket
    opens and no [resume()] settles, and whatever the clock readings in
    between, the chunks started during the stretch are chunks of frames of
    the stretch, started in the order of arrival of their frames, with start
    times that never decrease.  While audio streams in (binary frames and
    clock or state changes of the context) with a context in place and no
    Web Audio call throwing, the chunks started are exactly the chunks of
    the frames the validator accepts, every one of them, once each and in
    order. *)
Theorem frames_play_in_arrival_order :
  (forall before events,
      Forall not_reset events ->
      let s := run' before initial_state in
      exists new,
        started (audio (run' events s)) = started (audio s) ++ new /\
        Subseq (map buffer new) (chunks_of_events events) /\
        StronglySorted Qle (map startTime new)) /\
  (forall before events,
      (forall c i, webaudio_throws c i = false) ->
      Forall streaming events ->
      let s := run' before initial_state in
      audioContextRef (audio s) <> None ->
      exists new,
        started (audio (run' events s)) = started (audio s) ++ new /\
        map buffer new = chunks_of_events events /\
        StronglySorted Qle (map startTime new)).
Proof.
  assert (H1 : forall before events,
             Forall not_reset events ->
             exists new,
               started (audio (run' events (run' before initial_state)))
               = started (audio (run' before initial_state)) ++ new /\
               Subseq (map buffer new) (chunks_of_events events) /\
               StronglySorted Qle (map startTime new)).
  { intros before events Hno.
    apply (run_extends_schedule webaudio_throws JSON_parse WebSocket_throws
             events (run' before initial_state) [] Hno).
    - apply queue_empty_between_events. reflexivity.
    - constructor.
    - constructor. }
  split; [exact H1|].
  intros before events Hok Hev. cbv zeta. intros Hctx.
  destruct (streaming_run_exact events (run' before initial_state) Hok Hev Hctx)
    as (new & Hst & Hb).
  { apply queue_empty_between_events. reflexivity. }
  exists new. split; [exact Hst|]. split; [exact Hb|].
  destruct (H1 before events) as (new' & Hst' & _ & Hsorted).
  { eapply Forall_impl; [|exact Hev]. apply streaming_not_reset. }
  rewrite Hst in Hst'. apply app_inv_head in Hst'. subst new'. exact Hsorted.
Qed.

End ContextProperties.

(** ** Further properties: starting, stopping and the connection *)

Lemma failed_status_is_red message :
  call_status_class (String.append "Call failed: " message)
  = "bg-red-50 text-red-700 border-red-200".
Proof. reflexivity. Qed.

Lemma app_singleton_neq {A} (l : list A) (x : A) : l ++ [x] <> l.
Proof.
  intros H. apply (f_equal (@length A)) in H.
  rewrite length_app in H. simpl in H. lia.
Qed.

Lemma incl_nil_eq {A} (l : list A) : incl l [] -> l = [].
Proof.
  destruct l as [|x l]; [reflexivity|]. intros H.
  destruct (H x (or_introl eq_refl)).
Qed.

Lemma filter_partition_length {A} (f : A -> bool) (l : list A) :
  length (filter f l) + length (filter (fun x => negb (f x)) l) = length l.
Proof.
  induction l as [|x l IH]; simpl; [reflexivity|].
  destruct (f x); simpl; lia.
Qed.

Section ConnectionProperties.

Variable webaudio_throws : AudioContext -> AudioQueueItem -> bool.
Variable JSON_parse : string -> option Json.
Variable WebSocket_throws : string -> option string.

Local Abbreviation step' := (step webaudio_throws JSON_parse WebSocket_throws).
Local Abbreviation run' := (run webaudio_throws JSON_parse WebSocket_throws).
Local Abbreviation onmessage' := (onmessage webaudio_throws JSON_parse).
Local Abbreviation startCall' := (startCall WebSocket_throws).
Local Abbreviation connectWebSocket' := (connectWebSocket WebSocket_throws).
Local Abbreviation elapse' := (elapse WebSocket_throws).

(** Stopping twice is stopping once.  A second [stopListening] from a closure
    that holds no socket changes nothing at all; from a closure that holds a
    socket it only calls [close(1000)] on that socket again and clears the
    [ws] state. *)
Theorem stopListening_is_idempotent (w : option nat) (s : State) :
  stopListening None (stopListening w s) = stopListening w s /\
  forall socket,
    stopListening (Some socket) (stopListening w s)
    = setWs None
        (with_net (log_close (socket, 1000%Z, "User stopped listening"))
                  (stopListening w s)).
Proof.
  destruct s as [[cs ls vw ip] [c q t l] [rt u tm nt ck cn cc] rw].
  split; [|intros socket];
    destruct w as [id|], rt as [r|], c as [[sr ct []]|]; reflexivity.
Qed.

(** What [startCall] does to the connection side, whatever the request
    yields. *)
Lemma startCall_cases r s :
  (net (startCall' r s) = net s /\
   ws (view (startCall' r s)) = ws (view s) /\
   exists message,
     callStatus (view (startCall' r s)) = String.append "Call failed: " message) \/
  exists status url callId error,
    r = Response true status (Body (Some url) callId error) /\
    url <> "" /\
    net (startCall' r s) = log_connect url (set_wsUrl url (net s)) /\
    ((WebSocket_throws url = None /\
      ws (view (startCall' r s)) = Some (length (connects (net s))) /\
      callStatus (view (startCall' r s)) = "Call in progress...") \/
     (exists message,
        WebSocket_throws url = Some message /\
        ws (view (startCall' r s)) = ws (view s) /\
        callStatus (view (startCall' r s))
        = String.append "Call failed: " message)).
Proof.
  exact (startCall_settled_cases WebSocket_throws r
           (setCallStatus "Starting call..." s)).
Qed.

Lemma net_startCall_url status u c e s :
  u <> "" ->
  net (startCall' (Response true status (Body (Some u) c e)) s)
  = log_connect u (set_wsUrl u (net s)).
Proof.
  intros Hu. unfold startCall, startCall_settled. cbn [negb].
  apply String.eqb_neq in Hu. rewrite Hu. unfold connectWebSocket.
  destruct (WebSocket_throws u); reflexivity.
Qed.

(** [startCall] in one piece is its two halves with nothing in between: the
    click, which only shows ["Starting call..."], and the settling of the
    request.  It constructs a socket exactly when the response is successful
    and carries a non-empty [listenUrl], and then exactly one, for the URL of
    the response, which becomes the retained endpoint; in every other case
    the connection side is left as it is.  It ends either with the status
    ["Call in progress..."] and the new socket in [ws], or with a status
    ["Call failed: ..."] and [ws] untouched; the latter also when the
    [WebSocket] constructor throws, in which case the endpoint stays
    retained although no socket exists.  The audio side is never touched. *)
Theorem startCall_outcomes (r : FetchOutcome) (s : State) :
  let s' := startCall' r s in
  (callStatus (view (startCall_begin s)) = "Starting call..." /\
   net (startCall_begin s) = net s /\
   ws (view (startCall_begin s)) = ws (view s) /\
   onfetch WebSocket_throws r (startCall_begin s) = s') /\
  (connects (net s') <> connects (net s) <->
   exists status url callId error,
     r = Response true status (Body (Some url) callId error) /\ url <> "") /\
  (forall status url callId error,
     r = Response true status (Body (Some url) callId error) -> url <> "" ->
     connects (net s') = connects (net s) ++ [url] /\
     wsUrlRef (net s') = url /\
     (WebSocket_throws url = None ->
      callStatus (view s') = "Call in progress..." /\
      ws (view s') = Some (length (connects (net s)))) /\
     (forall message, WebSocket_throws url = Some message ->
      callStatus (view s') = String.append "Call failed: " message /\
      ws (view s') = ws (view s))) /\
  ((forall status url callId error,
      r = Response true status (Body (Some url) callId error) -> url = "") ->
   net s' = net s /\ ws (view s') = ws (view s) /\
   exists message,
     callStatus (view s') = String.append "Call failed: " message) /\
  (callStatus (view s') = "Call in progress..." /\
   ws (view s') = Some (length (connects (net s))) /\
   length (connects (net s')) = S (length (connects (net s)))
   \/
   (exists message,
      callStatus (view s') = String.append "Call failed: " message) /\
   ws (view s') = ws (view s)) /\
  timers (net s') = timers (net s) /\
  audio s' = audio s.
Proof.
  cbv zeta.
  split; [|split; [|split; [|split; [|split; [|split]]]]].
  - split; [reflexivity|]. split; [reflexivity|]. split; [reflexivity|].
    apply startCall_split.
  - split.
    + intros Hne.
      destruct (startCall_cases r s) as [(Hn & _) | (st & u & c & e & Hr & Hu & _)].
      * rewrite Hn in Hne. congruence.
      * exists st, u, c, e. auto.
    + intros (st & u & c & e & -> & Hu).
      rewrite (net_startCall_url st u c e s Hu). cbn. apply app_singleton_neq.
  - intros st u c e Hr Hu.
    destruct (startCall_cases r s)
      as [(Hn & _ & m & Hm) | (st' & u' & c' & e' & Hr' & _ & Hn & Hcases)].
    + exfalso. subst r. rewrite (net_startCall_url st u c e s Hu) in Hn.
      apply (f_equal connects) in Hn. cbn in Hn.
      exact (app_singleton_neq _ _ Hn).
    + rewrite Hr in Hr'. injection Hr' as <- <- <- <-.
      rewrite Hn. cbn. split; [reflexivity|]. split; [reflexivity|].
      destruct Hcases as [(Hnone & Hw & Hc) | (m & Hsome & Hw & Hc)]; split.
      * auto.
      * intros m Hm. congruence.
      * intros Hnone. congruence.
      * intros m' Hm'. rewrite Hm' in Hsome. injection Hsome as ->. auto.
  - intros Hnot.
    destruct (startCall_cases r s)
      as [H | (st & u & c & e & Hr & Hu & _)]; [exact H|].
    exfalso. apply Hu. apply (Hnot st u c e Hr).
  - destruct (startCall_cases r s)
      as [(Hn & Hw & Hm) | (st & u & c & e & _ & _ & Hn & [(_ & Hw & Hc) | (m & _ & Hw & Hc)])].
    + right. auto.
    + left. rewrite Hn. cbn. rewrite length_app. simpl.
      repeat split; auto. lia.
    + right. eauto.
  - destruct (startCall_cases r s) as [(Hn & _) | (st & u & c & e & _ & _ & Hn & _)];
      rewrite Hn; reflexivity.
  - apply (audio_startCall WebSocket_throws).
Qed.

(** Every outcome of [startCall] is rendered in a definite style: the call
    status box is green exactly when the call is in progress with a socket
    stored, and red for every failure, whatever the text of the error
    message (even one that contains "progress" or "ended"). *)
Theorem start_failure_is_shown_red (r : FetchOutcome) (s : State) :
  let s' := startCall' r s in
  (ws (view s') = Some (length (connects (net s))) /\
   callStatus (view s') = "Call in progress..." /\
   call_status_class (callStatus (view s'))
   = "bg-green-50 text-green-700 border-green-200") \/
  (ws (view s') = ws (view s) /\
   call_status_class (callStatus (view s'))
   = "bg-red-50 text-red-700 border-red-200").
Proof.
  cbv zeta.
  destruct (startCall_cases r s)
    as [(_ & Hw & m & Hm) | (st & u & c & e & _ & _ & _ & [(_ & Hw & Hc) | (m & _ & Hw & Hc)])].
  - right. rewrite Hm. split; [exact Hw | apply failed_status_is_red].
  - left. rewrite Hc. repeat split. exact Hw.
  - right. rewrite Hc. split; [exact Hw | apply failed_status_is_red].
Qed.

End ConnectionProperties.

(** ** Further properties: whole runs of the connection *)

Section RunProperties.

Variable webaudio_throws : AudioContext -> AudioQueueItem -> bool.
Variable JSON_parse : string -> option Json.
Variable WebSocket_throws : string -> option string.

Local Abbreviation step' := (step webaudio_throws JSON_parse WebSocket_throws).
Local Abbreviation run' := (run webaudio_throws JSON_parse WebSocket_throws).
Local Abbreviation onmessage' := (onmessage webaudio_throws JSON_parse).
Local Abbreviation startCall' := (startCall WebSocket_throws).
Local Abbreviation elapse' := (elapse WebSocket_throws).

(** The message handler either leaves the connection side and the call
    status alone, or is the [stopListening] of the mount render. *)
Lemma onmessage_cases m ts s :
  (net (onmessage' m ts s) = net s /\
   callStatus (view (onmessage' m ts s)) = callStatus (view s) /\
   pending_fetches (onmessage' m ts s) = pending_fetches s /\
   ws (view (onmessage' m ts s)) = ws (view s) /\
   rendered_ws (onmessage' m ts s) = rendered_ws s) \/
  onmessage' m ts s = stopListening None (setCallStatus "Call ended" s).
Proof.
  unfold onmessage.
  destruct (audioContextRef (audio s)); [|auto 8].
  destruct m as [d | raw].
  - destruct (negb (validateAudioData (Some d))); [auto 8|].
    destruct (byteLength d =? 0); [auto 8|].
    destruct (Int16Array d) as [pcm|]; [|auto 8].
    destruct (length pcm =? 0); [auto 8|].
    destruct (length (to_float32 pcm) =? 0); auto 8.
  - destruct (JSON_parse raw) as [j|]; [|auto 8].
    destruct (is_call_ended j) as [[|]|]; auto 8.
Qed.

Lemma clearReconnect_budget n :
  connects (clearReconnect n) = connects n /\
  length (timers (clearReconnect n)) <= length (timers n).
Proof.
  unfold clearReconnect. destruct (reconnectTimeoutRef n); cbn;
    (split; [reflexivity|]); [apply filter_length_le | lia].
Qed.

Lemma stopListening_budget w s :
  connects (net (stopListening w s)) = connects (net s) /\
  nextTimer (net (stopListening w s)) = nextTimer (net s) /\
  length (timers (net (stopListening w s))) <= length (timers (net s)).
Proof.
  destruct (net_stopListening w s) as (_ & H1 & _ & H2 & _ & H3 & _).
  rewrite H1, H2, H3. repeat split.
  apply clearReconnect_budget.
Qed.

Lemma pending_stopListening w s :
  pending_fetches (stopListening w s) = pending_fetches s.
Proof.
  unfold stopListening. destruct w; cbn;
    destruct (audioContextRef (audio s)) as [c|]; try destruct (state c);
    reflexivity.
Qed.

Lemma pending_elapse ms s :
  pending_fetches (elapse' ms s) = pending_fetches s.
Proof.
  unfold elapse.
  apply (fold_reconnect_inv WebSocket_throws
           (fun s' => pending_fetches s' = pending_fetches s)).
  - intros s' H. unfold reconnect, connectWebSocket.
    destruct (WebSocket_throws (wsUrlRef (net s'))); cbn; exact H.
  - reflexivity.
Qed.

(** The requests in flight change only at a click on Start and at the
    settling of a request. *)
Lemma pending_fetches_step e s :
  not_start e -> pending_fetches (step' e s) = pending_fetches s.
Proof.
  intros He.
  destruct e as [|r| | |i|ok|m ts|code| |ms|t|st]; cbn [step];
    try contradiction.
  - destruct (rendered_ws s); [|reflexivity]. apply pending_stopListening.
  - unfold commit.
    destruct (ws (view s)) as [a|], (rendered_ws s) as [b|];
      try destruct (a =? b); try reflexivity;
      cbn [set_rendered_ws pending_fetches]; apply pending_stopListening.
  - apply onopen_frame.
  - apply onresume_frame.
  - destruct (onmessage_cases m ts s) as [(_ & _ & H & _)|H]; [exact H|].
    rewrite H. apply (pending_stopListening None (setCallStatus "Call ended" s)).
  - unfold onclose.
    destruct (negb (code =? 1000)%Z && negb (code =? 1001)%Z && _); reflexivity.
  - reflexivity.
  - apply pending_elapse.
  - apply tick_audio_frame.
  - apply audio_state_frame.
Qed.

(** What one event can add to the connection attempts made, pending and
    still to come from requests in flight: at most one, and only a click on
    Start or an abnormal close. *)
Lemma net_step_budget e s :
  length (connects (net (step' e s))) + length (timers (net (step' e s)))
  + pending_fetches (step' e s)
  <= length (connects (net s)) + length (timers (net s)) + pending_fetches s
     + (if is_start e then 1 else 0) + (if abnormal_close e then 1 else 0).
Proof.
  assert (Hclr : forall s',
            net s' = net s \/ net s' = clearReconnect (net s) ->
            pending_fetches s' = pending_fetches s ->
            length (connects (net s')) + length (timers (net s'))
            + pending_fetches s'
            <= length (connects (net s)) + length (timers (net s))
               + pending_fetches s).
  { intros s' [H|H] Hp; rewrite H, Hp; [lia|].
    destruct (clearReconnect_budget (net s)) as [H1 H2]. rewrite H1. lia. }
  destruct e as [|r| | |i|ok|m ts|code| |ms|t|st];
    cbn [is_start abnormal_close];
    try (match goal with
         | |- context [pending_fetches (step _ _ _ ?e s)] =>
             rewrite (pending_fetches_step e s I)
         end); cbn [step].
  - destruct (rendered_ws s); cbn; lia.
  - unfold onfetch. destruct (pending_fetches s) as [|k] eqn:Hk; [lia|].
    destruct (startCall_settled_frame WebSocket_throws r (set_pending_fetches k s))
      as (_ & _ & Hp & _).
    rewrite Hp.
    destruct (startCall_settled_cases WebSocket_throws r (set_pending_fetches k s))
      as [(Hn & _) | (st & u & c & e & _ & _ & Hn & _)]; rewrite Hn; cbn.
    + lia.
    + rewrite length_app. simpl. lia.
  - destruct (rendered_ws s); [|lia].
    destruct (stopListening_budget (Some n) s) as (H1 & _ & H2). rewrite H1. lia.
  - unfold commit.
    destruct (ws (view s)) as [a|], (rendered_ws s) as [b|];
      try destruct (a =? b); try lia; cbn [set_rendered_ws net];
      match goal with
      | |- context [stopListening ?w s] =>
          destruct (stopListening_budget w s) as (H1 & _ & H2); rewrite H1; lia
      end.
  - destruct (onopen_frame i s) as ([H|H] & _); rewrite H; [lia|].
    destruct (clearReconnect_budget (net s)) as [H1 H2]. rewrite H1. lia.
  - destruct (onresume_frame ok s) as ([H|H] & _); rewrite H; [lia|].
    destruct (clearReconnect_budget (net s)) as [H1 H2]. rewrite H1. lia.
  - destruct (onmessage_cases m ts s) as [[H _]|H]; rewrite H; [lia|].
    destruct (stopListening_budget None (setCallStatus "Call ended" s))
      as (H1 & _ & H2). rewrite H1. cbn in *. lia.
  - destruct (Z.eqb_spec code 1000) as [->|H0]; cbn [negb andb];
      [rewrite onclose_clean by auto; lia|].
    destruct (Z.eqb_spec code 1001) as [->|H1]; cbn [negb andb];
      [rewrite onclose_clean by auto; lia|].
    destruct (String.eqb_spec (wsUrlRef (net s)) "") as [Hu|Hu];
      [rewrite onclose_clean by auto; lia|].
    destruct (onclose_abnormal code s H0 H1 Hu) as [Hn _]. rewrite Hn. cbn.
    rewrite length_app. simpl. lia.
  - cbn. lia.
  - pose proof (net_elapse WebSocket_throws ms s) as H. cbv zeta in H.
    destruct H as (_ & _ & _ & _ & _ & Htm & Hcn). rewrite Htm, Hcn.
    rewrite length_app, repeat_length.
    pose proof (filter_partition_length
                  (fun x => snd x <=? clock (net s) + ms) (timers (net s))). lia.
  - unfold tick_audio. destruct (audioContextRef (audio s)); cbn; lia.
  - unfold audio_state. destruct (audioContextRef (audio s)); cbn; lia.
Qed.

(** No reconnect storm.  In every run of the component from its mount, the
    sockets constructed so far plus the reconnects still pending never exceed
    the clicks on Start plus the abnormal close events: each abnormal close
    buys at most one reconnect attempt, and nothing else ever opens a
    socket. *)
Theorem connection_attempts_are_bounded (events : list Event) :
  let s := run' events initial_state in
  length (connects (net s)) + length (timers (net s))
  <= length (filter is_start events) + length (filter abnormal_close events).
Proof.
  cbv zeta.
  enough (H : forall s,
             length (connects (net (run' events s)))
             + length (timers (net (run' events s)))
             + pending_fetches (run' events s)
             <= length (connects (net s)) + length (timers (net s))
                + pending_fetches s
                + length (filter is_start events)
                + length (filter abnormal_close events)).
  { specialize (H initial_state). cbn in H. cbn. lia. }
  unfold run. induction events as [|e events IH]; intros s; simpl; [lia|].
  specialize (IH (step' e s)). pose proof (net_step_budget e s) as Hs.
  destruct (is_start e), (abnormal_close e); simpl; lia.
Qed.

Lemma callStatus_elapse ms s :
  callStatus (view (elapse' ms s)) = callStatus (view s).
Proof.
  unfold elapse.
  apply (fold_reconnect_inv WebSocket_throws
           (fun s' => callStatus (view s') = callStatus (view s))).
  - intros s' H. unfold reconnect, connectWebSocket.
    destruct (WebSocket_throws (wsUrlRef (net s'))); cbn; exact H.
  - reflexivity.
Qed.

(** What one event does to the call status and the requests in flight: it
    leaves both alone, or sets the status to one of the three settled
    values, or to ["Starting call..."] with a request in flight. *)
Lemma callStatus_step e s :
  (callStatus (view (step' e s)) = callStatus (view s) /\
   pending_fetches (step' e s) = pending_fetches s) \/
  callStatus (view (step' e s)) = "Idle" \/
  (callStatus (view (step' e s)) = "Starting call..." /\
   0 < pending_fetches (step' e s)) \/
  callStatus (view (step' e s)) = "Call in progress..." \/
  exists message,
    callStatus (view (step' e s)) = String.append "Call failed: " message.
Proof.
  destruct e as [|r| | |i|ok|m ts|code| |ms|t|st]; cbn [step].
  - destruct (rendered_ws s); [auto|].
    right; right; left. cbn. split; [reflexivity | lia].
  - unfold onfetch. destruct (pending_fetches s) as [|k] eqn:Hk; [auto|].
    destruct (startCall_settled_cases WebSocket_throws r (set_pending_fetches k s))
      as [(_ & _ & Hm) | (st & u & c & e & _ & _ & _ & [(_ & _ & Hc) | (m & _ & _ & Hc)])];
      eauto 6.
  - destruct (rendered_ws s) eqn:E.
    + right; left. apply view_stopListening.
    + left. split; [reflexivity|].
      pose proof (pending_fetches_step ClickEnd s I) as H. cbn [step] in H.
      rewrite E in H. exact H.
  - pose proof (pending_fetches_step Commit s I) as Hp. cbn [step] in Hp.
    unfold commit in *.
    destruct (ws (view s)) as [a|], (rendered_ws s) as [b|];
      try destruct (a =? b); auto; right; left;
      cbn [set_rendered_ws view]; apply view_stopListening.
  - left. split; [apply onopen_frame|].
    apply (pending_fetches_step (SocketOpen i) s I).
  - left. split; [apply onresume_frame|].
    apply (pending_fetches_step (ResumeSettled ok) s I).
  - destruct (onmessage_cases m ts s) as [(_ & H1 & H2 & _)|H]; [auto|].
    right; left. rewrite H. apply view_stopListening.
  - left. split; [|apply (pending_fetches_step (SocketClose code) s I)].
    unfold onclose.
    destruct (negb (code =? 1000)%Z && negb (code =? 1001)%Z && _); reflexivity.
  - left. split; reflexivity.
  - left. split; [apply callStatus_elapse | apply pending_elapse].
  - left. destruct (tick_audio_frame t s) as (_ & Hv & _ & Hp).
    rewrite Hv, Hp. auto.
  - left. destruct (audio_state_frame st s) as (_ & Hv & _ & Hp).
    rewrite Hv, Hp. auto.
Qed.

(** In every run of the component from its mount, after every event the call
    status is ["Idle"], ["Starting call..."], ["Call in progress..."] or
    ["Call failed: ..."].  It is never ["Call ended"]: the status set at line
    197 is overwritten with ["Idle"] before the handler returns.  And
    ["Starting call..."] is shown only while a request of [startCall] is in
    flight. *)
Theorem call_ended_is_never_shown (events : list Event) :
  let s := run' events initial_state in
  let status := callStatus (view s) in
  (status = "Idle" \/ status = "Starting call..." \/
   status = "Call in progress..." \/
   exists message, status = String.append "Call failed: " message) /\
  status <> "Call ended" /\
  (status = "Starting call..." -> 0 < pending_fetches s).
Proof.
  cbv zeta.
  set (inv := fun s : State =>
         (callStatus (view s) = "Idle" \/
          callStatus (view s) = "Starting call..." \/
          callStatus (view s) = "Call in progress..." \/
          exists message,
            callStatus (view s) = String.append "Call failed: " message) /\
         (callStatus (view s) = "Starting call..." -> 0 < pending_fetches s)).
  assert (H : forall s, inv s -> inv (run' events s)).
  { unfold run. induction events as [|e events IH]; intros s Hs; simpl; [exact Hs|].
    apply IH. destruct Hs as [Hs Hp]. unfold inv.
    destruct (callStatus_step e s) as [[H1 H2] | [H | [[H1 H2] | [H | (m & H)]]]].
    - rewrite H1, H2. auto.
    - rewrite H. split; [auto | discriminate].
    - rewrite H1. split; [auto | intros _; exact H2].
    - rewrite H. split; [auto | discriminate].
    - rewrite H. split; [eauto 6 | discriminate]. }
  assert (H0 : inv initial_state).
  { split; [left; reflexivity | discriminate]. }
  destruct (H initial_state H0) as [Hs Hp].
  split; [exact Hs|]. split; [|exact Hp].
  destruct Hs as [Hs | [Hs | [Hs | (m & Hs)]]]; rewrite Hs; discriminate.
Qed.

End RunProperties.

Section CommittedRuns.

Variable webaudio_throws : AudioContext -> AudioQueueItem -> bool.
Variable JSON_parse : string -> option Json.
Variable WebSocket_throws : string -> option string.

Local Abbreviation step' := (step webaudio_throws JSON_parse WebSocket_throws).
Local Abbreviation run' := (run webaudio_throws JSON_parse WebSocket_throws).
Local Abbreviation onmessage' := (onmessage webaudio_throws JSON_parse).
Local Abbreviation startCall' := (startCall WebSocket_throws).
Local Abbreviation elapse' := (elapse WebSocket_throws).

Lemma commit_budget s :
  nextTimer (net (commit s)) = nextTimer (net s) /\
  connects (net (commit s)) = connects (net s) /\
  incl (timers (net (commit s))) (timers (net s)).
Proof.
  unfold commit.
  destruct (ws (view s)) as [a|], (rendered_ws s) as [b|];
    try destruct (a =? b); auto using incl_refl; cbn [set_rendered_ws net];
    match goal with
    | |- context [stopListening ?w s] =>
        destruct (net_stopListening w s) as (_ & H1 & _ & H2 & _ & H3 & _)
    end;
    rewrite H1, H2, H3; repeat split;
    apply (quiet_clearReconnect (net s)).
Qed.

(** The socket held after a commit is the one held before or none, and the
    socket rendered is the one rendered before or the one held before. *)
Lemma commit_ws s :
  (ws (view (commit s)) = ws (view s) \/ ws (view (commit s)) = None) /\
  (rendered_ws (commit s) = rendered_ws s \/
   rendered_ws (commit s) = ws (view s)).
Proof.
  unfold commit.
  destruct (ws (view s)) as [a|] eqn:Ea, (rendered_ws s) as [b|] eqn:Eb;
    try destruct (a =? b); auto; cbn [set_rendered_ws view rendered_ws];
    match goal with
    | |- context [stopListening ?w s] =>
        destruct (view_stopListening w s) as (_ & _ & _ & H & _)
    end; rewrite H, ?Ea; auto.
Qed.

(** An event that belongs to no Start, while no timer is pending, hands the
    component no new socket. *)
Lemma ws_quiet_step e s :
  not_start e -> timers (net s) = [] ->
  (ws (view (step' e s)) = ws (view s) \/ ws (view (step' e s)) = None) /\
  (rendered_ws (step' e s) = rendered_ws s \/
   rendered_ws (step' e s) = ws (view s)).
Proof.
  intros He Ht.
  destruct e as [|r| | |i|ok|m ts|code| |ms|t|st]; cbn [step];
    try contradiction.
  - destruct (rendered_ws s) eqn:E; [|auto].
    destruct (view_stopListening (Some n) s) as (_ & _ & _ & H1 & H2).
    rewrite H1, H2. auto.
  - apply commit_ws.
  - destruct (onopen_frame i s) as (_ & _ & H1 & H2 & _). rewrite H1, H2. auto.
  - destruct (onresume_frame ok s) as (_ & _ & H1 & H2 & _). rewrite H1, H2. auto.
  - destruct (onmessage_cases webaudio_throws JSON_parse m ts s)
      as [(_ & _ & _ & H1 & H2)|H]; [rewrite H1, H2; auto|].
    rewrite H.
    destruct (view_stopListening None (setCallStatus "Call ended" s))
      as (_ & _ & _ & H1 & H2).
    rewrite H1, H2. auto.
  - unfold onclose.
    destruct (negb (code =? 1000)%Z && negb (code =? 1001)%Z && _); auto.
  - auto.
  - unfold elapse. rewrite Ht. cbn. auto.
  - destruct (tick_audio_frame t s) as (_ & H1 & H2 & _). rewrite H1, H2. auto.
  - destruct (audio_state_frame st s) as (_ & H1 & H2 & _). rewrite H1, H2. auto.
Qed.

(** The settling of a request followed by the commit of its render leaves no
    endpoint retained and arms no timer; it constructs at most one socket,
    for the request it uses up. *)
Lemma committed_fetch r s :
  (forall u, WebSocket_throws u = None) ->
  wsUrlRef (net s) = "" ->
  (forall b, rendered_ws s = Some b -> b < length (connects (net s))) ->
  (forall a, ws (view s) = Some a -> a < length (connects (net s))) ->
  let s2 := commit (step' (FetchSettled r) s) in
  wsUrlRef (net s2) = "" /\
  nextTimer (net s2) = nextTimer (net s) /\
  incl (timers (net s2)) (timers (net s)) /\
  length (connects (net s2)) + pending_fetches s2
  <= length (connects (net s)) + pending_fetches s /\
  (forall b, rendered_ws s2 = Some b -> b < length (connects (net s2))) /\
  (forall a, ws (view s2) = Some a -> a < length (connects (net s2))).
Proof.
  intros Hok Hu Hrw Hws. cbv zeta.
  assert (Hquiet : forall s1,
            net s1 = net s -> ws (view s1) = ws (view s) ->
            rendered_ws s1 = rendered_ws s ->
            pending_fetches s1 <= pending_fetches s ->
            wsUrlRef (net (commit s1)) = "" /\
            nextTimer (net (commit s1)) = nextTimer (net s) /\
            incl (timers (net (commit s1))) (timers (net s)) /\
            length (connects (net (commit s1))) + pending_fetches (commit s1)
            <= length (connects (net s)) + pending_fetches s /\
            (forall b, rendered_ws (commit s1) = Some b ->
                       b < length (connects (net (commit s1)))) /\
            (forall a, ws (view (commit s1)) = Some a ->
                       a < length (connects (net (commit s1))))).
  { intros s1 Hn Hw Hr Hp.
    destruct (quiet_step webaudio_throws JSON_parse WebSocket_throws Commit s1 I)
      as (H1 & H2 & H3); [rewrite Hn; exact Hu|].
    cbn [step] in H1, H2, H3. rewrite Hn in H2, H3.
    destruct (commit_budget s1) as (_ & H4 & _). rewrite Hn in H4.
    pose proof (pending_fetches_step webaudio_throws JSON_parse WebSocket_throws
                  Commit s1 I) as H5. cbn [step] in H5.
    destruct (commit_ws s1) as [H6 H7]. rewrite Hw in H6, H7. rewrite Hr in H7.
    rewrite H4, H5. repeat split; auto; try lia.
    - intros b Hb. destruct H7 as [H7|H7]; rewrite H7 in Hb; auto.
    - intros a Ha. destruct H6 as [H6|H6]; rewrite H6 in Ha; [auto|discriminate]. }
  cbn [step]. unfold onfetch.
  destruct (pending_fetches s) as [|k] eqn:Hk.
  { apply Hquiet; auto. lia. }
  set (s0 := set_pending_fetches k s).
  destruct (startCall_settled_frame WebSocket_throws r s0) as (Hr & _ & Hp & _).
  destruct (startCall_settled_cases WebSocket_throws r s0)
    as [(Hn & Hw & _) | (st & u & c & e & _ & _ & Hn & [(_ & Hw & _) | (m & Hth & _)])].
  - destruct (Hquiet (startCall_settled WebSocket_throws r s0))
      as (H1 & H2 & H3 & H4 & H5 & H6); auto.
    { rewrite Hp. cbn. lia. }
    repeat split; auto.
  - set (s1 := startCall_settled WebSocket_throws r s0) in *.
    cbn [s0 set_pending_fetches net view rendered_ws pending_fetches] in Hn, Hw, Hr, Hp.
    destruct (commit_forgets_endpoint s1) as [H1 H2].
    { rewrite Hw, Hr. destruct (rendered_ws s) as [b|] eqn:Eb; [|discriminate].
      specialize (Hrw b eq_refl). intros E. injection E as E. lia. }
    destruct (commit_budget s1) as (H3 & H4 & H5).
    pose proof (pending_fetches_step webaudio_throws JSON_parse WebSocket_throws
                  Commit s1 I) as H6. cbn [step] in H6.
    destruct (commit_ws s1) as [H7 _].
    rewrite H3, H4, H6, Hp, Hn, H2, Hw in *. cbn in *.
    rewrite length_app in *. cbn [length] in *.
    repeat split; auto; try lia.
    + intros b Hb. injection Hb as <-. lia.
    + intros a Ha. destruct H7 as [H7|H7]; rewrite H7 in Ha; [|discriminate].
      injection Ha as <-. lia.
  - rewrite Hok in Hth. discriminate.
Qed.

(** With no endpoint retained and no timer pending, an event that belongs to
    no Start constructs no socket. *)
Lemma quiet_step_connects e s :
  not_start e ->
  wsUrlRef (net s) = "" -> timers (net s) = [] ->
  connects (net (step' e s)) = connects (net s).
Proof.
  intros He Hu Ht.
  destruct e as [|r| | |i|ok|m ts|code| |ms|t|st]; cbn [step];
    try contradiction.
  - destruct (rendered_ws s); [|reflexivity]. apply stopListening_budget.
  - apply commit_budget.
  - destruct (onopen_frame i s) as ([H|H] & _); rewrite H; [reflexivity|].
    apply (quiet_clearReconnect (net s)).
  - destruct (onresume_frame ok s) as ([H|H] & _); rewrite H; [reflexivity|].
    apply (quiet_clearReconnect (net s)).
  - destruct (onmessage_cases webaudio_throws JSON_parse m ts s) as [[H _]|H];
      rewrite H; [reflexivity|].
    apply (stopListening_budget None (setCallStatus "Call ended" s)).
  - rewrite onclose_clean by auto. reflexivity.
  - reflexivity.
  - apply (no_timer_elapse WebSocket_throws s ms Ht).
  - unfold tick_audio. destruct (audioContextRef (audio s)); reflexivity.
  - unfold audio_state. destruct (audioContextRef (audio s)); reflexivity.
Qed.

Lemma committed_run n : forall events s,
  length events <= n ->
  (forall u, WebSocket_throws u = None) ->
  starts_committed events ->
  wsUrlRef (net s) = "" -> timers (net s) = [] ->
  (forall b, rendered_ws s = Some b -> b < length (connects (net s))) ->
  (forall a, ws (view s) = Some a -> a < length (connects (net s))) ->
  wsUrlRef (net (run' events s)) = "" /\
  timers (net (run' events s)) = [] /\
  nextTimer (net (run' events s)) = nextTimer (net s) /\
  length (connects (net (run' events s))) + pending_fetches (run' events s)
  <= length (connects (net s)) + pending_fetches s
     + length (filter is_start events).
Proof.
  unfold run.
  induction n as [|n IH]; intros events s Hlen Hok Hc Hu Ht Hrw Hws.
  - destruct events; [|simpl in Hlen; lia]. simpl. repeat split; auto. lia.
  - destruct events as [|e events]; [simpl; repeat split; auto; lia|].
    assert (Hquiet : not_start e -> starts_committed events ->
              wsUrlRef (net (fold_left (fun s' e' => step' e' s') (e :: events) s)) = "" /\
              timers (net (fold_left (fun s' e' => step' e' s') (e :: events) s)) = [] /\
              nextTimer (net (fold_left (fun s' e' => step' e' s') (e :: events) s))
              = nextTimer (net s) /\
              length (connects (net (fold_left (fun s' e' => step' e' s') (e :: events) s)))
              + pending_fetches (fold_left (fun s' e' => step' e' s') (e :: events) s)
              <= length (connects (net s)) + pending_fetches s
                 + length (filter is_start (e :: events))).
    { intros He Hc'.
      destruct (quiet_step webaudio_throws JSON_parse WebSocket_throws e s He Hu)
        as (H1 & H2 & H3).
      rewrite Ht in H3. apply incl_nil_eq in H3.
      pose proof (quiet_step_connects e s He Hu Ht) as H4.
      pose proof (pending_fetches_step webaudio_throws JSON_parse WebSocket_throws
                    e s He) as H5.
      destruct (ws_quiet_step e s He Ht) as [H6 H7].
      destruct (IH events (step' e s)) as (I1 & I2 & I3 & I4); auto.
      { simpl in Hlen. lia. }
      { rewrite H4. intros b Hb. destruct H7 as [H7|H7]; rewrite H7 in Hb; auto. }
      { rewrite H4. intros a Ha.
        destruct H6 as [H6|H6]; rewrite H6 in Ha; [auto|discriminate]. }
      cbn [fold_left]. rewrite I3, H2. repeat split; auto.
      rewrite H4, H5 in I4. cbn [filter].
      destruct (is_start e); simpl; lia. }
    destruct e as [|r| | |i|ok|m ts|code| |ms|t|st];
      try (apply Hquiet; [exact I | exact Hc]).
    + cbn [starts_committed] in Hc.
      destruct (IH events (step' ClickStart s)) as (I1 & I2 & I3 & I4); auto.
      { simpl in Hlen. lia. }
      { cbn [step]. destruct (rendered_ws s); exact Hu. }
      { cbn [step]. destruct (rendered_ws s); exact Ht. }
      { cbn [step]. destruct (rendered_ws s) eqn:E; cbn; rewrite ?E; auto. }
      { cbn [step]. destruct (rendered_ws s); exact Hws. }
      cbn [fold_left filter is_start length]. rewrite I3.
      assert (Hsame : nextTimer (net (step' ClickStart s)) = nextTimer (net s) /\
                      connects (net (step' ClickStart s)) = connects (net s) /\
                      pending_fetches (step' ClickStart s) <= S (pending_fetches s)).
      { cbn [step]. destruct (rendered_ws s); cbn; repeat split; lia. }
      destruct Hsame as (S1 & S2 & S3). rewrite S2 in I4.
      repeat split; auto. lia.
    + cbn [starts_committed] in Hc.
      destruct events as [|[| | | | | | | | | | |] events]; try contradiction.
      destruct (committed_fetch r s Hok Hu Hrw Hws) as (H1 & H2 & H3 & H4 & H5 & H6).
      rewrite Ht in H3. apply incl_nil_eq in H3.
      destruct (IH events (commit (step' (FetchSettled r) s)))
        as (I1 & I2 & I3 & I4); auto.
      { simpl in Hlen. lia. }
      cbn [fold_left filter is_start length]. cbn [step] in *.
      rewrite I3, H2. repeat split; auto. lia.
Qed.

(** Reconnection never happens in a normal session.  In every run of the
    component from its mount in which each Start is committed (the settling
    of its request is directly followed by the commit of the render it
    causes), and the [WebSocket] constructor does not throw: the cleanup of the effect of lines 291-295 has emptied
    the retained endpoint before any socket event, so no timer is ever armed,
    a close event with any code schedules nothing, and the only sockets ever
    constructed are those of the clicks on Start. *)
Theorem reconnect_is_dead_when_renders_commit (events : list Event) :
  (forall u, WebSocket_throws u = None) ->
  starts_committed events ->
  let s := run' events initial_state in
  wsUrlRef (net s) = "" /\
  timers (net s) = [] /\
  nextTimer (net s) = 1 /\
  (forall code, net (onclose code s) = net s) /\
  length (connects (net s)) <= length (filter is_start events).
Proof.
  intros Hok Hc. cbv zeta.
  destruct (committed_run (length events) events initial_state
              (le_n _) Hok Hc eq_refl eq_refl) as (H1 & H2 & H3 & H4).
  { discriminate. }
  { discriminate. }
  repeat split; auto.
  - intros code. apply onclose_clean. auto.
  - cbn in H4. lia.
Qed.

End CommittedRuns.

(** ** Further properties: what the page shows *)

Section PageProperties.

Variable webaudio_throws : AudioContext -> AudioQueueItem -> bool.
Variable JSON_parse : string -> option Json.
Variable WebSocket_throws : string -> option string.

Local Abbreviation step' := (step webaudio_throws JSON_parse WebSocket_throws).
Local Abbreviation run' := (run webaudio_throws JSON_parse WebSocket_throws).
Local Abbreviation onmessage' := (onmessage webaudio_throws JSON_parse).
Local Abbreviation startCall' := (startCall WebSocket_throws).
Local Abbreviation elapse' := (elapse WebSocket_throws).

Lemma listenStatus_elapse ms s :
  listenStatus (view (elapse' ms s)) = listenStatus (view s).
Proof.
  unfold elapse.
  apply (fold_reconnect_inv WebSocket_throws
           (fun s' => listenStatus (view s') = listenStatus (view s))).
  - intros s' H. unfold reconnect, connectWebSocket.
    destruct (WebSocket_throws (wsUrlRef (net s'))); cbn; exact H.
  - reflexivity.
Qed.

Lemma listenStatus_onopen i s :
  listenStatus (view (onopen i s)) = "Listening..." \/
  listenStatus (view (onopen i s)) = "Audio Error".
Proof.
  unfold onopen, initAudioContext.
  cbn [setListenStatus with_view view audio listenStatus].
  destruct (audioContextRef (audio s)) as [c|]; [destruct (state c)|];
    destruct i as [|rate t st]; try destruct st; cbn; auto.
Qed.

Lemma listenStatus_onresume ok s :
  listenStatus (view (onresume ok s)) = listenStatus (view s) \/
  listenStatus (view (onresume ok s)) = "Audio Error".
Proof.
  unfold onresume, initAudioContext_resumed.
  destruct (pending_resumes s); [auto|].
  destruct ok; cbn; [destruct (audioContextRef (audio s))|]; cbn; auto.
Qed.

Lemma listenStatus_onmessage m ts s :
  listenStatus (view (onmessage' m ts s)) = listenStatus (view s) \/
  listenStatus (view (onmessage' m ts s)) = "Stopped".
Proof.
  unfold onmessage.
  destruct (audioContextRef (audio s)); [|auto].
  destruct m as [d | raw].
  - destruct (negb (validateAudioData (Some d))); [auto|].
    destruct (byteLength d =? 0); [auto|].
    destruct (Int16Array d) as [pcm|]; [|auto].
    destruct (length pcm =? 0); [auto|].
    destruct (length (to_float32 pcm) =? 0); auto.
  - destruct (JSON_parse raw) as [j|]; [|auto].
    destruct (is_call_ended j) as [[|]|]; auto.
Qed.

Lemma listenStatus_step e s :
  listenStatus (view (step' e s)) = listenStatus (view s) \/
  In (listenStatus (view (step' e s)))
     ["Listening..."; "Audio Error"; "Stopped"; "Connection closed";
      "Reconnecting..."; "Connection error"].
Proof.
  destruct e as [|r| | |i|ok|m ts|code| |ms|t|st]; cbn [step].
  - destruct (rendered_ws s); auto.
  - left. unfold onfetch. destruct (pending_fetches s) as [|k]; [reflexivity|].
    destruct (startCall_settled_frame WebSocket_throws r (set_pending_fetches k s))
      as (_ & H & _).
    exact H.
  - destruct (rendered_ws s); [|auto]. right.
    destruct (view_stopListening (Some n) s) as (_ & H & _). rewrite H. simpl. auto.
  - unfold commit.
    destruct (ws (view s)) as [a|], (rendered_ws s) as [b|];
      try destruct (a =? b); auto; right; cbn [set_rendered_ws view];
      match goal with
      | |- context [stopListening ?w s] =>
          destruct (view_stopListening w s) as (_ & H & _); rewrite H
      end; simpl; auto.
  - right. destruct (listenStatus_onopen i s) as [H|H]; rewrite H; simpl; auto.
  - destruct (listenStatus_onresume ok s) as [H|H]; [auto|].
    right. rewrite H. simpl. auto.
  - destruct (listenStatus_onmessage m ts s) as [H|H]; [auto|].
    right. rewrite H. simpl. auto.
  - right. unfold onclose.
    destruct (negb (code =? 1000)%Z && negb (code =? 1001)%Z && _); simpl; auto 6.
  - right. simpl. auto 7.
  - left. apply listenStatus_elapse.
  - left. unfold tick_audio. destruct (audioContextRef (audio s)); reflexivity.
  - left. unfold audio_state. destruct (audioContextRef (audio s)); reflexivity.
Qed.

(** In every run of the component from its mount the audio status is one of
    seven texts, and the page styles it as follows: green exactly for
    ["Listening..."], red exactly for ["Audio Error"], and yellow exactly for
    the five others.  In particular ["Connection error"] is shown in yellow,
    not red: the test of line 374 looks for ["Error"] with a capital E. *)
Theorem listen_status_styles (events : list Event) :
  let status := listenStatus (view (run' events initial_state)) in
  In status ["Not listening"; "Listening..."; "Audio Error"; "Stopped";
             "Connection closed"; "Reconnecting..."; "Connection error"] /\
  (listen_status_class status = "bg-green-50 text-green-700 border-green-200"
   <-> status = "Listening...") /\
  (listen_status_class status = "bg-red-50 text-red-700 border-red-200"
   <-> status = "Audio Error") /\
  (listen_status_class status = "bg-yellow-50 text-yellow-700 border-yellow-200"
   <-> In status ["Not listening"; "Stopped"; "Connection closed";
                  "Reconnecting..."; "Connection error"]) /\
  listen_status_class "Connection error"
  = "bg-yellow-50 text-yellow-700 border-yellow-200".
Proof.
  cbv zeta.
  assert (H : forall s,
             In (listenStatus (view s))
                ["Not listening"; "Listening..."; "Audio Error"; "Stopped";
                 "Connection closed"; "Reconnecting..."; "Connection error"] ->
             In (listenStatus (view (run' events s)))
                ["Not listening"; "Listening..."; "Audio Error"; "Stopped";
                 "Connection closed"; "Reconnecting..."; "Connection error"]).
  { unfold run. induction events as [|e events IH]; intros s Hs; simpl; [exact Hs|].
    apply IH. destruct (listenStatus_step e s) as [H|H]; [rewrite H; exact Hs|].
    right. exact H. }
  specialize (H initial_state (or_introl eq_refl)).
  split; [exact H|].
  simpl in H.
  destruct H as [H|[H|[H|[H|[H|[H|[H|[]]]]]]]]; rewrite <- H;
    (split; [split; [intros E; try discriminate E; reflexivity
                    | intros E; try discriminate E; reflexivity]|]);
    (split; [split; [intros E; try discriminate E; reflexivity
                    | intros E; try discriminate E; reflexivity]|]);
    (split; [split; [intros E; try discriminate E; simpl; auto 6
                    | intros E; simpl in E;
                      repeat (destruct E as [E|E]; try discriminate E);
                      try contradiction; reflexivity]|]);
    reflexivity.
Qed.

(** After the call-ended notification the page still holds the socket: the
    [ws] state is unchanged, so Start stays disabled whatever the phone
    number and End Call stays enabled.  Only a click on End Call, whose
    [stopListening] holds the socket, closes it and clears [ws], after which
    Start is enabled again for a non-empty phone number. *)
Theorem call_ended_leaves_start_disabled
        (s : State) (socket : nat) (raw : string) (message : Json)
        (date_now : Z) (phoneNumber : string) :
  audioContextRef (audio s) <> None ->
  ws (view s) = Some socket -> rendered_ws s = Some socket ->
  JSON_parse raw = Some message -> is_call_ended message = Some true ->
  let ended := step' (SocketMessage (Text raw) date_now) s in
  let stopped := step' ClickEnd ended in
  (ws (view ended) = Some socket /\
   start_disabled phoneNumber (ws (view ended)) = true /\
   end_disabled (ws (view ended)) = false /\
   closeCalls (net ended) = closeCalls (net s)) /\
  (ws (view stopped) = None /\
   closeCalls (net stopped)
   = closeCalls (net s) ++ [(socket, 1000%Z, "User stopped listening")] /\
   start_disabled phoneNumber (ws (view stopped)) = String.eqb phoneNumber "" /\
   end_disabled (ws (view stopped)) = true).
Proof.
  intros Hctx Hws Hr Hp Hce. cbv zeta. cbn [step].
  destruct (call_ended_keeps_socket webaudio_throws JSON_parse raw message
              date_now s Hctx Hp Hce) as (Hcc & Hw & _).
  assert (Hrw : rendered_ws (onmessage' (Text raw) date_now s) = Some socket).
  { unfold onmessage. destruct (audioContextRef (audio s)); [|congruence].
    rewrite Hp, Hce. unfold stopListening_at_mount.
    destruct (view_stopListening None (setCallStatus "Call ended" s))
      as (_ & _ & _ & _ & H). rewrite H. exact Hr. }
  rewrite Hw, Hws. split.
  - repeat split; [|exact Hcc]. unfold start_disabled. apply orb_true_r.
  - rewrite Hrw.
    destruct (view_stopListening (Some socket) (onmessage' (Text raw) date_now s))
      as (_ & _ & _ & Hv & _).
    destruct (net_stopListening (Some socket) (onmessage' (Text raw) date_now s))
      as (_ & _ & _ & _ & _ & _ & Hc).
    rewrite Hv, Hc, Hcc. repeat split.
    unfold start_disabled. apply orb_false_r.
Qed.

(** When the audio context cannot be created as the socket opens and none
    existed, the page reports ["Audio Error"] but still marks the stream as
    playing, and from then on every frame and every control message is
    dropped, the call-ended notification included. *)
Theorem audio_init_failure_drops_everything
        (s : State) (m : MessageData) (date_now : Z) :
  audioContextRef (audio s) = None ->
  let s' := onopen CtorThrows s in
  listenStatus (view s') = "Audio Error" /\
  isPlaying (view s') = true /\
  audioContextRef (audio s') = None /\
  onmessage' m date_now s' = s'.
Proof.
  intros Hc. cbv zeta.
  assert (H : audioContextRef (audio (onopen CtorThrows s)) = None).
  { unfold onopen, initAudioContext.
    cbn [setListenStatus with_view view audio].
    rewrite Hc. cbn. exact Hc. }
  repeat split.
  - unfold onopen, initAudioContext.
    cbn [setListenStatus with_view view audio].
    rewrite Hc. reflexivity.
  - unfold onopen, initAudioContext.
    cbn [setListenStatus with_view view audio].
    rewrite Hc. reflexivity.
  - exact H.
  - unfold onmessage. rewrite H. reflexivity.
Qed.

End PageProperties.

(** ** The further properties on sample inputs *)

(** The clamp on the frame holding 16384 and -16384. *)
Lemma clamp_is_identity_on_pcm16_witness :
  Int16Array frame_half = Some [16384; -16384]%Z /\
  Forall2 Qeq (to_float32 [16384; -16384]%Z)
              (simple_to_float32 [16384; -16384]%Z) /\
  Forall (fun y => (-1 <= y)%Q /\ (y < 1)%Q)
         (simple_to_float32 [16384; -16384]%Z).
Proof.
  split; [reflexivity|].
  apply (clamp_is_identity_on_pcm16 frame_half). reflexivity.
Defined.

(** A call-ended notification that arrives after Start but before the socket
    has opened. *)
Lemma messages_before_open_are_dropped_witness :
  let events := [ClickStart; FetchSettled origination_ok; Commit] in
  let s := run webaudio_ok sample_parse websocket_ok events initial_state in
  Forall not_open events /\
  onmessage webaudio_ok sample_parse (Text call_ended_text) 0 s = s.
Proof.
  cbv zeta.
  assert (H : Forall not_open [ClickStart; FetchSettled origination_ok; Commit])
    by (repeat constructor).
  split; [exact H|].
  apply (messages_before_open_are_dropped webaudio_ok sample_parse websocket_ok
           _ (Text call_ended_text) 0 H).
Defined.

(** The 4-byte frame received while listening. *)
Lemma malformed_messages_change_nothing_witness :
  validateAudioData (Some frame_half) = false /\
  onmessage webaudio_ok sample_parse (Binary frame_half) 0 listening = listening.
Proof.
  split; [reflexivity|].
  apply (proj1 (malformed_messages_change_nothing webaudio_ok sample_parse
                  listening 0)).
  reflexivity.
Defined.

(** A frame of 128 silent samples received while listening, clock and cursor
    at 0: one source is started at 0 and the cursor moves to 8 ms. *)
Lemma valid_frame_is_played_once_witness :
  let samples := to_float32 (repeat 0%Z 128) in
  let s' := onmessage webaudio_ok sample_parse (Binary frame_silence) 7 listening in
  (audioContextRef (audio listening) = Some (ctx16k 0) /\
   audioQueueRef (audio listening) = [] /\
   validateAudioData (Some frame_silence) = true /\
   decode frame_silence = Some samples /\
   webaudio_ok (ctx16k 0) {| data := samples; timestamp := 7 |} = false) /\
  started (audio s') = [{| startTime := Qmax 0 0; buffer := samples |}] /\
  (nextPlayTimeRef (audio s') == 8 # 1000)%Q.
Proof.
  cbv zeta.
  split; [repeat split|].
  destruct (valid_frame_is_played_once webaudio_ok sample_parse listening
              (ctx16k 0) frame_silence (to_float32 (repeat 0%Z 128)) 7
              eq_refl eq_refl eq_refl eq_refl) as [Hplay _].
  destruct (Hplay eq_refl) as (Hs & _). rewrite Hs.
  split; reflexivity.
Defined.

(** A drain that runs late: clock at 1 s, cursor at 8 ms, two chunks. *)
Lemma drain_never_schedules_in_the_past_witness :
  let a := audio_with 1 (8 # 1000) [silence_item; silence_item] in
  let r := processAudioQueue webaudio_ok a in
  audioContextRef a = Some (ctx16k 1) /\
  (nextPlayTimeRef a <= nextPlayTimeRef r)%Q /\
  exists new,
    started r = started a ++ new /\
    Forall (fun x =>
              (currentTime (ctx16k 1) <= startTime x)%Q /\
              (nextPlayTimeRef a <= startTime x)%Q /\
              (startTime x + duration (ctx16k 1) (length (buffer x))
               <= nextPlayTimeRef r)%Q) new.
Proof.
  cbv zeta. split; [reflexivity|].
  apply (drain_never_schedules_in_the_past webaudio_ok). reflexivity.
Defined.

(** The same late drain is gapless from its second chunk on. *)
Lemma drain_is_gapless_witness :
  let a := audio_with 1 (8 # 1000) [silence_item; silence_item] in
  audioContextRef a = Some (ctx16k 1) /\
  exists new,
    started (processAudioQueue webaudio_ok a) = started a ++ new /\
    spaced (sampleRate (ctx16k 1)) new /\
    forall k x y,
      nth_error new k = Some x -> nth_error new (S k) = Some y ->
      (startTime y
       == startTime x + duration (ctx16k 1) (length (buffer x)))%Q.
Proof.
  cbv zeta. split; [reflexivity|].
  apply (drain_is_gapless webaudio_ok). reflexivity.
Defined.

(** A queue holding a playable chunk, a one-sample chunk and an empty
    chunk. *)
Lemma drain_skips_unplayable_chunks_witness :
  let a := audio_with 0 0 [silence_item;
                           {| data := [0%Q]; timestamp := 0 |};
                           {| data := []; timestamp := 0 |}] in
  (audioContextRef a = Some (ctx16k 0) /\ length (audioQueueRef a) <= 51) /\
  processAudioQueue webaudio_ok a
  = processAudioQueue webaudio_ok (set_audioQueue [silence_item] a).
Proof.
  cbv zeta. split; [split; [reflexivity | cbn; lia]|].
  apply (drain_skips_unplayable_chunks webaudio_ok
           (audio_with 0 0 [silence_item;
                            {| data := [0%Q]; timestamp := 0 |};
                            {| data := []; timestamp := 0 |}])
           (ctx16k 0) eq_refl).
  cbn; lia.
Defined.

(** Sixty playable chunks in the queue: 26 are played. *)
Lemma overflow_drops_the_middle_witness :
  let a := audio_with 0 0 (repeat silence_item 60) in
  let r := processAudioQueue webaudio_ok a in
  (audioContextRef a = Some (ctx16k 0) /\
   audioQueueRef a = silence_item :: repeat silence_item 59 /\
   50 < length (repeat silence_item 59) /\
   Forall (fun x => playable webaudio_ok (ctx16k 0) x = true)
          (silence_item :: repeat silence_item 59)) /\
  audioQueueRef r = [] /\
  length (started r) = 26.
Proof.
  cbv zeta.
  assert (Hall : Forall (fun x => playable webaudio_ok (ctx16k 0) x = true)
                        (silence_item :: repeat silence_item 59)).
  { apply Forall_forall. intros x Hx.
    assert (x = silence_item) as ->.
    { destruct Hx as [<-|Hx]; [reflexivity|]. eapply repeat_spec. exact Hx. }
    reflexivity. }
  assert (Hlen : 50 < length (repeat silence_item 59))
    by (rewrite repeat_length; lia).
  split; [repeat split; [exact Hlen | exact Hall]|].
  destruct (overflow_drops_the_middle webaudio_ok
              (audio_with 0 0 (repeat silence_item 60)) (ctx16k 0)
              silence_item (repeat silence_item 59)
              eq_refl eq_refl Hlen Hall) as (Hq & Hn & Hst & _).
  split; [exact Hq|]. rewrite Hst.
  cbn [audio_with started app].
  rewrite <- (length_map buffer), back_to_back_buffers. exact Hn.
Defined.

(** A socket that reopens while the context created at the first opening is
    still running: the context the browser would create is not asked for. *)
Lemma context_survives_reopen_witness :
  (audioContextRef (audio listening) = Some (ctx16k 0) /\
   state (ctx16k 0) = running) /\
  audio (onopen (Created 48000 5 suspended) listening) = audio listening /\
  pending_resumes (onopen (Created 48000 5 suspended) listening)
  = pending_resumes listening.
Proof.
  split; [split; reflexivity|].
  apply (proj1 (context_survives_reopen webaudio_ok sample_parse websocket_ok)
               listening (ctx16k 0)); reflexivity.
Defined.


(** Three different frames received by the listening component, with a
    one-byte frame and clock readings in between. *)
Lemma frames_play_in_arrival_order_witness :
  let before := [ClickStart; FetchSettled origination_ok; Commit;
                 SocketOpen (Created 16000 0 running)] in
  let events := [SocketMessage (Binary (frame_tone "001")) 0; AudioClock 1;
                 SocketMessage (Binary ["000"%byte]) 2;
                 SocketMessage (Binary (frame_tone "002")) 5;
                 AudioState suspended;
                 SocketMessage (Binary (frame_tone "003")) 6] in
  let go := run webaudio_ok sample_parse websocket_ok in
  let s := go before initial_state in
  ((forall c i, webaudio_ok c i = false) /\
   Forall streaming events /\
   audioContextRef (audio s) <> None) /\
  exists new,
    started (audio (go events s)) = started (audio s) ++ new /\
    map buffer new = chunks_of_events events /\
    StronglySorted Qle (map startTime new).
Proof.
  cbv zeta.
  assert (Hev : Forall streaming
                  [SocketMessage (Binary (frame_tone "001")) 0; AudioClock 1;
                   SocketMessage (Binary ["000"%byte]) 2;
                   SocketMessage (Binary (frame_tone "002")) 5;
                   AudioState suspended;
                   SocketMessage (Binary (frame_tone "003")) 6])
    by (repeat constructor).
  split; [split; [reflexivity | split; [exact Hev | discriminate]]|].
  apply (proj2 (frames_play_in_arrival_order webaudio_ok sample_parse websocket_ok)
               [ClickStart; FetchSettled origination_ok; Commit;
                SocketOpen (Created 16000 0 running)] _
               (fun _ _ => eq_refl) Hev).
  discriminate.
Defined.

(** A session with an abnormal close, time passing and a second Start, each
    Start committed. *)
Lemma reconnect_is_dead_when_renders_commit_witness :
  let events := [ClickStart; FetchSettled origination_ok; Commit;
                 SocketOpen (Created 16000 0 running);
                 SocketMessage (Binary frame_silence) 0;
                 SocketClose 1006; Elapse 5000; ClickEnd; Commit;
                 ClickStart; FetchSettled origination_ok; Commit;
                 SocketClose 1011] in
  let s := run webaudio_ok sample_parse websocket_ok events initial_state in
  ((forall u, websocket_ok u = None) /\ starts_committed events) /\
  wsUrlRef (net s) = "" /\
  timers (net s) = [] /\
  nextTimer (net s) = 1 /\
  (forall code, net (onclose code s) = net s) /\
  length (connects (net s)) <= length (filter is_start events).
Proof.
  cbv zeta. split; [split; [reflexivity | exact I]|].
  apply (reconnect_is_dead_when_renders_commit webaudio_ok sample_parse
           websocket_ok).
  - reflexivity.
  - exact I.
Defined.

(** The call-ended notification received by the listening component. *)
Lemma call_ended_leaves_start_disabled_witness :
  let ended := step webaudio_ok sample_parse websocket_ok
                    (SocketMessage (Text call_ended_text) 0) listening in
  (audioContextRef (audio listening) <> None /\
   ws (view listening) = Some 0 /\ rendered_ws listening = Some 0 /\
   sample_parse call_ended_text = Some (JObj [("type", JStr "call-ended")]) /\
   is_call_ended (JObj [("type", JStr "call-ended")]) = Some true) /\
  start_disabled "+1234567890" (ws (view ended)) = true /\
  end_disabled (ws (view ended)) = false.
Proof.
  cbv zeta. split; [repeat split; discriminate|].
  destruct (call_ended_leaves_start_disabled webaudio_ok sample_parse websocket_ok
              listening 0 call_ended_text (JObj [("type", JStr "call-ended")])
              0 "+1234567890")
    as [(_ & H1 & H2 & _) _]; try reflexivity; [discriminate|].
  split; assumption.
Defined.

(** The socket opens right after Start and the context cannot be created. *)
Lemma audio_init_failure_drops_everything_witness :
  let s' := onopen CtorThrows connected in
  audioContextRef (audio connected) = None /\
  listenStatus (view s') = "Audio Error" /\
  isPlaying (view s') = true /\
  audioContextRef (audio s') = None /\
  onmessage webaudio_ok sample_parse (Binary frame_silence) 0 s' = s'.
Proof.
  cbv zeta. split; [reflexivity|].
  apply (audio_init_failure_drops_everything webaudio_ok sample_parse
           connected (Binary frame_silence) 0).
  reflexivity.
Defined.
